(** * A mutable, height-caching search tree with parent links (st.py)

    The Python objects of [st.py] live in an object store: every
    [InnerNode] is a record at a stable address, the [Empty] singleton is a
    distinguished reference with one mutable attribute ([parent]), and the
    [Tree] handle owns the [root] reference.  Methods are state
    transformers that may raise. *)

From Stdlib Require Import ZArith Lia Bool Sorted.
From stdpp Require Import base list sets.

Local Open Scope Z_scope.

(** ** Object store *)

(** A [Node] reference: the [Empty] singleton or an [InnerNode] object. *)
Inductive Node : Type :=
| Empty : Node
| Inner (a : nat) : Node.

(** The dataclass [InnerNode]; field order as declared. *)
Record InnerNode : Type := mkInner {
  _value : Z;
  _left : Node;
  _right : Node;
  _height : Z;
  parent : option nat
}.

Record State : Type := mkState {
  heap : list InnerNode;        (* the InnerNode objects, by address *)
  empty_parent : option nat;    (* Empty.parent *)
  root : Node                   (* Tree.root *)
}.

(** [Tree()] : no InnerNode yet, [Empty.parent = None], [root = Empty]. *)
Definition init : State := mkState [] None Empty.

Definition dummy : InnerNode := mkInner 0 Empty Empty 0 None.

Definition node (s : State) (a : nat) : InnerNode :=
  default dummy (heap s !! a).

Definition upd (a : nat) (f : InnerNode -> InnerNode) (s : State) : State :=
  mkState (alter f a (heap s)) (empty_parent s) (root s).

Definition with_value (v : Z) (n : InnerNode) : InnerNode :=
  mkInner v (_left n) (_right n) (_height n) (parent n).
Definition with_left (v : Node) (n : InnerNode) : InnerNode :=
  mkInner (_value n) v (_right n) (_height n) (parent n).
Definition with_right (v : Node) (n : InnerNode) : InnerNode :=
  mkInner (_value n) (_left n) v (_height n) (parent n).
Definition with_height (v : Z) (n : InnerNode) : InnerNode :=
  mkInner (_value n) (_left n) (_right n) v (parent n).
Definition with_parent (v : option nat) (n : InnerNode) : InnerNode :=
  mkInner (_value n) (_left n) (_right n) (_height n) v.

Definition set_root (r : Node) (s : State) : State :=
  mkState (heap s) (empty_parent s) r.

(** ** Node properties *)

(** [value]: [None] stands for the [AttributeError] of [EmptyClass.value]. *)
Definition value (s : State) (r : Node) : option Z :=
  match r with
  | Empty => None
  | Inner a => Some (_value (node s a))
  end.

Definition left (s : State) (r : Node) : Node :=
  match r with
  | Empty => Empty
  | Inner a => _left (node s a)
  end.

Definition right (s : State) (r : Node) : Node :=
  match r with
  | Empty => Empty
  | Inner a => _right (node s a)
  end.

Definition height (s : State) (r : Node) : Z :=
  match r with
  | Empty => 0
  | Inner a => _height (node s a)
  end.

(** [Node.bf], overridden by [EmptyClass.bf]. *)
Definition bf (s : State) (r : Node) : Z :=
  match r with
  | Empty => 0
  | Inner _ => height s (right s r) - height s (left s r)
  end.

Definition get_parent (s : State) (r : Node) : option nat :=
  match r with
  | Empty => empty_parent s
  | Inner a => parent (node s a)
  end.

(** [r.parent = p] : on [Empty] this writes the singleton's attribute. *)
Definition assign_parent (r : Node) (p : option nat) (s : State) : State :=
  match r with
  | Empty => mkState (heap s) p (root s)
  | Inner a => upd a (with_parent p) s
  end.

(** [self._height = max(self.left.height, self.right.height) + 1] *)
Definition recompute_height (a : nat) (s : State) : State :=
  upd a (with_height
           (Z.max (height s (left s (Inner a))) (height s (right s (Inner a))) + 1)) s.

(** The [left] setter. *)
Definition set_left (a : nat) (v : Node) (s : State) : State :=
  let s1 := upd a (with_left v) s in
  let s2 := assign_parent (left s1 (Inner a)) (Some a) s1 in
  recompute_height a s2.

(** The [right] setter. *)
Definition set_right (a : nat) (v : Node) (s : State) : State :=
  let s1 := upd a (with_right v) s in
  let s2 := assign_parent (right s1 (Inner a)) (Some a) s1 in
  recompute_height a s2.

Definition set_value (a : nat) (v : Z) (s : State) : State :=
  upd a (with_value v) s.

(** [InnerNode(val)] with the default arguments, followed by
    [__post_init__]; the new object gets the next free address. *)
Definition new_inner (val : Z) (s : State) : nat * State :=
  let a := length (heap s) in
  let s1 := mkState (heap s ++ [mkInner val Empty Empty 0 None])
                    (empty_parent s) (root s) in
  let s2 := assign_parent (left s1 (Inner a)) (Some a) s1 in
  let s3 := assign_parent (right s2 (Inner a)) (Some a) s2 in
  (a, recompute_height a s3).

#[global] Instance Node_eq_dec : EqDecision Node.
Proof. solve_decision. Defined.

Definition Node_eqb (a b : Node) : bool :=
  match a, b with
  | Empty, Empty => true
  | Inner x, Inner y => Nat.eqb x y
  | _, _ => false
  end.

(** [a == b].  [EmptyClass] has the identity comparison of [object]; the
    dataclass [InnerNode] compares the field tuples of two instances, each
    pair of fields first by identity and then by [==], in declaration order.
    The recursion through children and parents need not end: [None] is the
    [RecursionError]. *)
Fixpoint node_eq (fuel : nat) (s : State) (a b : Node) : option bool :=
  match a, b with
  | Empty, Empty => Some true
  | Empty, Inner _ => Some false
  | Inner _, Empty => Some false
  | Inner x, Inner y =>
      if Nat.eqb x y then Some true else
      match fuel with
      | O => None
      | S fuel' =>
          let n := node s x in
          let m := node s y in
          if negb (_value n =? _value m) then Some false else
          match node_eq fuel' s (_left n) (_left m) with
          | None => None
          | Some false => Some false
          | Some true =>
              match node_eq fuel' s (_right n) (_right m) with
              | None => None
              | Some false => Some false
              | Some true =>
                  if negb (_height n =? _height m) then Some false else
                  match parent n, parent m with
                  | None, None => Some true
                  | Some p, Some q => node_eq fuel' s (Inner p) (Inner q)
                  | _, _ => Some false
                  end
              end
          end
      end
  end.

(** [Node.is_left] *)
Definition is_left (fuel : nat) (s : State) (r : Node) : option bool :=
  match get_parent s r with
  | None => Some false
  | Some p => node_eq fuel s (left s (Inner p)) r
  end.

(** [Node.is_right] *)
Definition is_right (fuel : nat) (s : State) (r : Node) : option bool :=
  match get_parent s r with
  | None => Some false
  | Some p => node_eq fuel s (right s (Inner p)) r
  end.

(** ** Methods that may raise *)

Inductive Exn : Type :=
| AssertionError
| AttributeError
| RecursionError.

(** Outcome of a call: a value and the store it leaves, an exception raised
    in some store, or a loop that did not finish within its fuel. *)
Inductive Res (A : Type) : Type :=
| Ret (a : A) (s : State)
| Raise (e : Exn) (s : State)
| Timeout.
Arguments Ret {A} a s.
Arguments Raise {A} e s.
Arguments Timeout {A}.

Definition M (A : Type) : Type := State -> Res A.

Definition ret {A} (a : A) : M A := fun s => Ret a s.
Definition raise {A} (e : Exn) : M A := fun s => Raise e s.
Definition bind {A B} (m : M A) (k : A -> M B) : M B :=
  fun s => match m s with
           | Ret a s' => k a s'
           | Raise e s' => Raise e s'
           | Timeout => Timeout
           end.
Definition get {A} (f : State -> A) : M A := fun s => Ret (f s) s.
Definition put (f : State -> State) : M unit := fun s => Ret tt (f s).

Notation "x <- m ;; k" := (bind m (fun x => k))
  (at level 100, m at next level, right associativity).
Notation "m ;;; k" := (bind m (fun _ => k))
  (at level 100, right associativity).

(** An [==] on nodes inside a method. *)
Definition eq_test (fuel : nat) (a b : Node) : M bool :=
  fun s => match node_eq fuel s a b with
           | Some r => Ret r s
           | None => Raise RecursionError s
           end.

(** [Tree._set_parent] *)
Definition _set_parent (fuel : nat) (new old : Node) : M unit :=
  op <- get (fun s => get_parent s old) ;;
  match op with
  | None =>
      put (set_root new) ;;;
      put (assign_parent new None)
  | Some p =>
      put (assign_parent new (Some p)) ;;;
      il <- (fun s => match is_left fuel s old with
                      | Some r => Ret r s
                      | None => Raise RecursionError s
                      end) ;;
      np <- get (fun s => get_parent s new) ;;
      match np with
      | None => raise AttributeError
      | Some q => if (il : bool) then put (set_left q new) else put (set_right q new)
      end
  end.

(** [Tree._rot_left] *)
Definition _rot_left (fuel : nat) (x : nat) : M nat :=
  y <- get (fun s => right s (Inner x)) ;;
  b <- get (fun s => left s y) ;;
  match y with
  | Empty => raise AssertionError
  | Inner ya =>
      _set_parent fuel y (Inner x) ;;;
      put (set_right x b) ;;;
      put (set_left ya (Inner x)) ;;;
      ret ya
  end.

(** [Tree._rot_right] *)
Definition _rot_right (fuel : nat) (x : nat) : M nat :=
  y <- get (fun s => left s (Inner x)) ;;
  b <- get (fun s => right s y) ;;
  match y with
  | Empty => raise AssertionError
  | Inner ya =>
      _set_parent fuel y (Inner x) ;;;
      put (set_left x b) ;;;
      put (set_right ya (Inner x)) ;;;
      ret ya
  end.

(** [assert -2 < n.bf < +2; return n] *)
Definition check_bf (n : nat) : M nat :=
  fun s => if (-2 <? bf s (Inner n)) && (bf s (Inner n) <? 2)
           then Ret n s else Raise AssertionError s.

(** [Tree._balance_node] *)
Definition _balance_node (fuel : nat) (n : nat) : M nat :=
  fun s =>
    if (bf s (Inner n) =? 2) && (bf s (right s (Inner n)) >=? 0) then
      (m <- _rot_left fuel n ;; check_bf m) s
    else if (bf s (Inner n) =? 2) && (bf s (right s (Inner n)) =? -1) then
      match right s (Inner n) with
      | Empty => Raise AssertionError s
      | Inner r => (_rot_right fuel r ;;; m <- _rot_left fuel n ;; check_bf m) s
      end
    else if (bf s (Inner n) =? -2) && (bf s (left s (Inner n)) <=? 0) then
      (m <- _rot_right fuel n ;; check_bf m) s
    else if (bf s (Inner n) =? -2) && (bf s (left s (Inner n)) =? 1) then
      match left s (Inner n) with
      | Empty => Raise AssertionError s
      | Inner l => (_rot_left fuel l ;;; m <- _rot_right fuel n ;; check_bf m) s
      end
    else check_bf n s.

(** [Tree._rebalance]: [while (p := n.parent): p = self._balance_node(p); n = p] *)
Fixpoint _rebalance (fuel : nat) (n : Node) : M unit :=
  fun s =>
    match get_parent s n with
    | None => Ret tt s
    | Some p =>
        match fuel with
        | O => Timeout
        | S fuel' => (p' <- _balance_node fuel p ;; _rebalance fuel' (Inner p')) s
        end
    end.

(** [Tree._set_child] *)
Definition _set_child (fuel : nat) (par : option nat) (child : Node)
    (is_l : bool) : M unit :=
  match par with
  | None => put (set_root child)
  | Some p =>
      (if is_l then put (set_left p child) else put (set_right p child)) ;;;
      _rebalance fuel child
  end.

(** The descent of [Tree.insert]; [None] is the early [return]. *)
Fixpoint insert_find (fuel : nat) (s : State) (val : Z) (t : Node)
    (p : option nat) (went_left : bool) : option (option (option nat * bool)) :=
  match t with
  | Empty => Some (Some (p, went_left))
  | Inner a =>
      match fuel with
      | O => None
      | S fuel' =>
          if val =? _value (node s a) then Some None
          else if val <? _value (node s a)
               then insert_find fuel' s val (left s t) (Some a) true
               else insert_find fuel' s val (right s t) (Some a) false
      end
  end.

(** [Tree.insert] *)
Definition insert (fuel : nat) (val : Z) : M unit :=
  fun s =>
    match insert_find fuel s val (root s) None true with
    | None => Timeout
    | Some None => Ret tt s
    | Some (Some (p, went_left)) =>
        let '(a, s1) := new_inner val s in
        _set_child fuel p (Inner a) went_left s1
    end.

(** [rightmost] *)
Fixpoint rightmost_loop (fuel : nat) (s : State) (t : Node) : option (option Z) :=
  match right s t with
  | Empty => Some (value s t)
  | Inner _ =>
      match fuel with
      | O => None
      | S fuel' => rightmost_loop fuel' s (right s t)
      end
  end.

Definition rightmost (fuel : nat) (t : Node) : M Z :=
  fun s =>
    match t with
    | Empty => Raise AssertionError s
    | Inner _ =>
        match rightmost_loop fuel s t with
        | None => Timeout
        | Some None => Raise AttributeError s
        | Some (Some v) => Ret v s
        end
    end.

(** [Tree._remove]; one unit of fuel per loop iteration and per recursive
    call. *)
Fixpoint _remove (fuel : nat) (val : Z) (t : Node) (p : option nat)
    (went_left : bool) : M unit :=
  fun s =>
    match t with
    | Empty => Ret tt s
    | Inner n =>
        match fuel with
        | O => Timeout
        | S fuel' =>
            if val =? _value (node s n) then
              match left s t, right s t with
              | Empty, _ => _set_child fuel p (right s t) went_left s
              | _, Empty => _set_child fuel p (left s t) went_left s
              | _, _ =>
                  (v <- rightmost fuel (left s t) ;;
                   put (set_value n v) ;;;
                   v' <- get (fun s' => _value (node s' n)) ;;
                   l <- get (fun s' => left s' t) ;;
                   _remove fuel' v' l (Some n) true) s
              end
            else if val <? _value (node s n)
                 then _remove fuel' val (left s t) (Some n) true s
                 else _remove fuel' val (right s t) (Some n) false s
        end
    end.

(** [Tree.remove] *)
Definition remove (fuel : nat) (val : Z) : M unit :=
  fun s => _remove fuel val (root s) None true s.

(** [Tree.__contains__] *)
Fixpoint contains_loop (fuel : nat) (s : State) (val : Z) (t : Node) : option bool :=
  match t with
  | Empty => Some false
  | Inner a =>
      match fuel with
      | O => None
      | S fuel' =>
          if _value (node s a) =? val then Some true
          else if val <? _value (node s a)
               then contains_loop fuel' s val (left s t)
               else contains_loop fuel' s val (right s t)
      end
  end.

Definition contains (fuel : nat) (s : State) (val : Z) : option bool :=
  contains_loop fuel s val (root s).

(** [Tree.__bool__] *)
Definition nonempty (s : State) : bool := negb (Node_eqb (root s) Empty).

(** ** Sequences of operations *)

Inductive Op : Type :=
| Insert (k : Z)
| Remove (k : Z).

Definition run_op (fuel : nat) (o : Op) : M unit :=
  match o with
  | Insert k => insert fuel k
  | Remove k => remove fuel k
  end.

Fixpoint run (fuel : nat) (ops : list Op) : M unit :=
  match ops with
  | [] => ret tt
  | o :: ops' => run_op fuel o ;;; run fuel ops'
  end.

(** ** Invariants of the data model, over the nodes reachable from the root *)

(** [below s r d]: [d] is [r] or lies in the subtree under [r]. *)
Inductive below (s : State) : Node -> Node -> Prop :=
| below_here r : below s r r
| below_left a d : below s (left s (Inner a)) d -> below s (Inner a) d
| below_right a d : below s (right s (Inner a)) d -> below s (Inner a) d.

Definition reachable (s : State) (r : Node) : Prop := below s (root s) r.

(** Follow child links along a path ([true] is left). *)
Fixpoint walk (s : State) (r : Node) (path : list bool) : Node :=
  match path with
  | [] => r
  | b :: path' => walk s (if b then left s r else right s r) path'
  end.

(** Balance invariant: every reachable node has [bf] in {-1, 0, 1}. *)
Definition balance_inv (s : State) : Prop :=
  forall r, reachable s r -> -1 <= bf s r <= 1.

(** Height consistency of the cached heights. *)
Definition height_inv (s : State) : Prop :=
  height s Empty = 0 /\
  forall a, reachable s (Inner a) ->
    height s (Inner a) =
    1 + Z.max (height s (left s (Inner a))) (height s (right s (Inner a))).

(** Search-tree order. *)
Definition bst_inv (s : State) : Prop :=
  forall a d, reachable s (Inner a) ->
    (below s (left s (Inner a)) (Inner d) -> _value (node s d) < _value (node s a)) /\
    (below s (right s (Inner a)) (Inner d) -> _value (node s a) < _value (node s d)).

(** Parent consistency. *)
Definition parent_inv (s : State) : Prop :=
  (forall a, root s = Inner a -> parent (node s a) = None) /\
  forall a c, reachable s (Inner a) ->
    (left s (Inner a) = Inner c -> parent (node s c) = Some a) /\
    (right s (Inner a) = Inner c -> parent (node s c) = Some a).

(** An invariant holds after every completed operation of every sequence
    that starts from the empty tree. *)
Definition always (inv : State -> Prop) : Prop :=
  forall fuel ops s, run fuel ops init = Ret tt s -> inv s.

(** ** Tree-shaped regions of the store *)

(** The shape of a region: which object sits where. *)
Inductive shape : Type :=
| Leaf
| Br (l : shape) (a : nat) (r : shape).

Fixpoint addrs (t : shape) : list nat :=
  match t with
  | Leaf => []
  | Br l a r => a :: addrs l ++ addrs r
  end.

Definition top (t : shape) : Node :=
  match t with
  | Leaf => Empty
  | Br _ a _ => Inner a
  end.

(** [tree_at s r par t]: the reference [r] roots a region of shape [t];
    its objects are allocated, their child links follow [t], and each
    parent link points to the object above ([par] above the root). *)
Fixpoint tree_at (s : State) (r : Node) (par : option nat) (t : shape) : Prop :=
  match t with
  | Leaf => r = Empty
  | Br l a rr =>
      r = Inner a /\ (a < length (heap s))%nat /\ parent (node s a) = par /\
      tree_at s (_left (node s a)) (Some a) l /\
      tree_at s (_right (node s a)) (Some a) rr
  end.

(** The cached height of an object agrees with those of its children. *)
Definition height_ok (s : State) (a : nat) : Prop :=
  height s (Inner a) =
  Z.max (height s (left s (Inner a))) (height s (right s (Inner a))) + 1.

(** Cached heights are consistent all over a region. *)
Definition heights_ok (s : State) (t : shape) : Prop :=
  Forall (height_ok s) (addrs t).

(** The AVL balance condition all over a region. *)
Definition avl (s : State) (t : shape) : Prop :=
  Forall (fun a => -1 <= bf s (Inner a) <= 1) (addrs t).

(** Keys of a region, in order. *)
Fixpoint keys (s : State) (t : shape) : list Z :=
  match t with
  | Leaf => []
  | Br l a r => keys s l ++ _value (node s a) :: keys s r
  end.

(** Search-tree order of a region. *)
Fixpoint bst (s : State) (t : shape) : Prop :=
  match t with
  | Leaf => True
  | Br l a r =>
      bst s l /\ bst s r /\
      Forall (fun k => k < _value (node s a)) (keys s l) /\
      Forall (fun k => _value (node s a) < k) (keys s r)
  end.

(** How the root [n] of a region [t] hangs in the rest of the store: it has
    no parent, or its parent is an object outside the region that holds [n]
    in its left slot, or in its right slot next to a sibling with another
    key. *)
Definition attached (s : State) (n : nat) (t : shape) : Prop :=
  match parent (node s n) with
  | None => True
  | Some p =>
      (p < length (heap s))%nat /\ (p ∉ addrs t) /\
      (left s (Inner p) = Inner n \/
       (right s (Inner p) = Inner n /\
        value s (left s (Inner p)) <> value s (Inner n)))
  end.

(** A reference is [Empty] or an allocated object. *)
Definition valid (s : State) (r : Node) : Prop :=
  match r with
  | Empty => True
  | Inner a => (a < length (heap s))%nat
  end.

(** The slot of [p] that held [old] holds [new] afterwards. *)
Definition replaced_in (s s' : State) (p : nat) (old new : Node) : Prop :=
  (left s (Inner p) = old -> left s' (Inner p) = new /\ right s' (Inner p) = right s (Inner p)) /\
  (left s (Inner p) <> old -> right s' (Inner p) = new /\ left s' (Inner p) = left s (Inner p)).

(** What a rotation at [x] with child [y] needs from the store: [a] is the
    child that [x] keeps, [b] the subtree that moves from [y] to [x], [c]
    the child that [y] keeps.  The objects involved are distinct, and the
    parent of [x], if any, is none of them and holds [x] in its left slot
    or, in that slot, a node with another key. *)
Definition rot_ready (fuel : nat) (s : State) (x y : nat) (a b c : Node) : Prop :=
  (x < length (heap s))%nat /\ (y < length (heap s))%nat /\ x <> y /\
  valid s b /\ b <> Inner x /\ b <> Inner y /\ c <> Inner x /\ fuel <> O /\
  match parent (node s x) with
  | None => True
  | Some p =>
      (p < length (heap s))%nat /\ p <> x /\ p <> y /\
      a <> Inner p /\ b <> Inner p /\ c <> Inner p /\
      (left s (Inner p) = Inner x \/
       value s (left s (Inner p)) <> value s (Inner x))
  end.

(** The store after [_rot_left x] in terms of the store before it. *)
Definition rot_left_post (s : State) (x y : nat) (s' : State) : Prop :=
  let a := left s (Inner x) in
  let b := left s (Inner y) in
  let c := right s (Inner y) in
  let hx := Z.max (height s a) (height s b) + 1 in
  length (heap s') = length (heap s) /\
  node s' x = mkInner (_value (node s x)) a b hx (Some y) /\
  node s' y = mkInner (_value (node s y)) (Inner x) c
                      (Z.max hx (height s c) + 1) (parent (node s x)) /\
  root s' = match parent (node s x) with None => Inner y | Some _ => root s end /\
  empty_parent s' = match b with Empty => Some x | Inner _ => empty_parent s end /\
  (forall k, b = Inner k -> node s' k = with_parent (Some x) (node s k)) /\
  (forall p, parent (node s x) = Some p ->
     node s' p =
     if decide (left s (Inner p) = Inner x)
     then with_height (Z.max (height s (Inner y)) (height s (right s (Inner p))) + 1)
                      (with_left (Inner y) (node s p))
     else with_height (Z.max (height s (left s (Inner p))) (height s (Inner y)) + 1)
                      (with_right (Inner y) (node s p))) /\
  (forall k, k <> x -> k <> y -> b <> Inner k -> parent (node s x) <> Some k ->
     node s' k = node s k).

(** The store after [_rot_right x], the mirror image. *)
Definition rot_right_post (s : State) (x y : nat) (s' : State) : Prop :=
  let a := right s (Inner x) in
  let b := right s (Inner y) in
  let c := left s (Inner y) in
  let hx := Z.max (height s b) (height s a) + 1 in
  length (heap s') = length (heap s) /\
  node s' x = mkInner (_value (node s x)) b a hx (Some y) /\
  node s' y = mkInner (_value (node s y)) c (Inner x)
                      (Z.max (height s c) hx + 1) (parent (node s x)) /\
  root s' = match parent (node s x) with None => Inner y | Some _ => root s end /\
  empty_parent s' = match b with Empty => Some x | Inner _ => empty_parent s end /\
  (forall k, b = Inner k -> node s' k = with_parent (Some x) (node s k)) /\
  (forall p, parent (node s x) = Some p ->
     node s' p =
     if decide (left s (Inner p) = Inner x)
     then with_height (Z.max (height s (Inner y)) (height s (right s (Inner p))) + 1)
                      (with_left (Inner y) (node s p))
     else with_height (Z.max (height s (left s (Inner p))) (height s (Inner y)) + 1)
                      (with_right (Inner y) (node s p))) /\
  (forall k, k <> x -> k <> y -> b <> Inner k -> parent (node s x) <> Some k ->
     node s' k = node s k).

(** ** The claims about [_rot_left] and about [Empty], as worded *)

(** After [_rot_left x] every object that got a new child has a cached
    height that agrees with its children: [x], the returned [y], and the
    former parent of [x]. *)
Definition rot_left_heights_as_claimed (fuel : nat) (s : State) (x : nat) : Prop :=
  forall y s', _rot_left fuel x s = Ret y s' ->
    height_ok s' x /\ height_ok s' y /\
    forall p, parent (node s x) = Some p -> height_ok s' p.

(** No node construction, child-slot write or tree operation assigns the
    [parent] of [Empty]. *)
Definition Empty_never_assigned : Prop :=
  (forall v s, empty_parent (snd (new_inner v s)) = empty_parent s) /\
  (forall a v s, empty_parent (set_left a v s) = empty_parent s) /\
  (forall a v s, empty_parent (set_right a v s) = empty_parent s) /\
  (forall fuel o s s', run_op fuel o s = Ret tt s' -> empty_parent s' = empty_parent s).

(** Stores used as examples. *)
Definition store_of (ops : list Op) : State :=
  match run 20 ops init with
  | Ret _ s => s
  | Raise _ s => s
  | Timeout => init
  end.

(** The store after inserting 1, 2, 4, 5, 6: the tree 2 (1, 5 (4, 6)) with
    the node of key 5 at address 3 and its parent, key 2, at address 1. *)
Definition store_12456 : State :=
  store_of [Insert 1; Insert 2; Insert 4; Insert 5; Insert 6].

(** The store a left rotation at address 3 leaves from there. *)
Definition store_12456_rotated : State :=
  match _rot_left 1 3 store_12456 with
  | Ret _ s => s
  | Raise _ s => s
  | Timeout => store_12456
  end.

(** The store after inserting 1, 2, 4, 5, 6, 3, 7 and removing 1: the tree
    5 (2 (-, 4 (3, -)), 6 (-, 7)), with key 2 at address 1, key 4 at
    address 2, key 3 at address 5 and the root, key 5, at address 3. *)
Definition store_leaning : State :=
  store_of [Insert 1; Insert 2; Insert 4; Insert 5; Insert 6; Insert 3;
            Insert 7; Remove 1].

(** ** The claim about [_balance_node], as worded, and a store with twins *)

(** [_balance_node n] returns a node whose balance factor lies strictly
    between -2 and 2. *)
Definition balance_node_as_claimed (fuel : nat) (s : State) (n : nat) : Prop :=
  exists m s', _balance_node fuel n s = Ret m s' /\ -2 < bf s' (Inner m) < 2.

(** [_rot_left x] returns the right child of [x]. *)
Definition rot_left_returns_as_claimed (fuel : nat) (s : State) (x : nat) : Prop :=
  exists y s', right s (Inner x) = Inner y /\ _rot_left fuel x s = Ret y s'.

(** A store with twins.  The root, key 5 at address 0, holds in its left
    slot the chain 7, 8, 9 (addresses 1, 2, 3, each the right child of the
    one before) and in its right slot a second chain with the same keys
    (addresses 4, 5, 6).  Every parent link and every cached height is
    consistent. *)
Definition twin_store : State :=
  mkState
    [ mkInner 5 (Inner 1) (Inner 4) 4 None;
      mkInner 7 Empty (Inner 2) 3 (Some 0%nat);
      mkInner 8 Empty (Inner 3) 2 (Some 1%nat);
      mkInner 9 Empty Empty 1 (Some 2%nat);
      mkInner 7 Empty (Inner 5) 3 (Some 0%nat);
      mkInner 8 Empty (Inner 6) 2 (Some 4%nat);
      mkInner 9 Empty Empty 1 (Some 5%nat) ]
    None (Inner 0).

(** The right chain of [twin_store], and the whole of it. *)
Definition twin_region : shape :=
  Br Leaf 4 (Br Leaf 5 (Br Leaf 6 Leaf)).

Definition twin_shape : shape :=
  Br (Br Leaf 1 (Br Leaf 2 (Br Leaf 3 Leaf))) 0 twin_region.

(** [m] has in [s'] the place [n] had in [s]: the parent link of [n], and
    the slot of that parent that held [n]; without a parent, the root of
    the tree if [n] was the root. *)
Definition takes_place (s : State) (n : nat) (s' : State) (m : nat) : Prop :=
  parent (node s' m) = parent (node s n) /\
  match parent (node s n) with
  | None => root s = Inner n -> root s' = Inner m
  | Some p => replaced_in s s' p (Inner n) (Inner m)
  end.

(** The shape of the tree in [store_12456]. *)
Definition shape_12456 : shape :=
  Br (Br Leaf 0 Leaf) 1 (Br (Br Leaf 2 Leaf) 3 (Br Leaf 4 Leaf)).

(** What holds of the store a call leaves, whether it returns or raises. *)
Definition outcome {A : Type} (r : Res A) (P : State -> Prop) : Prop :=
  match r with
  | Ret _ s' => P s'
  | Raise _ s' => P s'
  | Timeout => True
  end.

(** Every object of [s] is still there in [s'] and holds the same key. *)
Definition keeps_keys (s s' : State) : Prop :=
  (length (heap s) <= length (heap s'))%nat /\
  forall k, (k < length (heap s))%nat -> _value (node s' k) = _value (node s k).

(** No object was created between [s] and [s']. *)
Definition same_objects (s s' : State) : Prop :=
  length (heap s') = length (heap s).

(** A non-empty tree stays non-empty. *)
Definition stays_nonempty (s s' : State) : Prop :=
  root s <> Empty -> root s' <> Empty.

(** [is_balanced] of test_st.py, the check the tests run after every
    operation (its diagnostic [print] is left out): [and] stops at the first
    false operand. *)
Fixpoint is_balanced (fuel : nat) (s : State) (n : Node) : option bool :=
  match n with
  | Empty => Some true
  | Inner _ =>
      match fuel with
      | O => None
      | S fuel' =>
          if (-2 <? bf s n) && (bf s n <? 2) then
            match is_balanced fuel' s (left s n) with
            | Some true => is_balanced fuel' s (right s n)
            | other => other
            end
          else Some false
      end
  end.

(** The nodes [_rebalance n] visits when no rotation happens: the parent of
    [n], its parent, and so on, up to the node without parent; [None] when
    the chain of parent links does not end within the fuel. *)
Fixpoint parent_chain (fuel : nat) (s : State) (n : Node) : option (list nat) :=
  match get_parent s n with
  | None => Some []
  | Some p =>
      match fuel with
      | O => None
      | S fuel' =>
          match parent_chain fuel' s (Inner p) with
          | Some l => Some (p :: l)
          | None => None
          end
      end
  end.

(** * Proofs *)

Set Warnings "-clear-no-such-hyp".

(** ** Reads after writes *)

Lemma length_upd a f s : length (heap (upd a f s)) = length (heap s).
Proof. unfold upd; simpl. apply length_alter. Qed.

Lemma node_upd_eq a f s :
  (a < length (heap s))%nat -> node (upd a f s) a = f (node s a).
Proof.
  intros Ha. unfold node, upd; simpl. rewrite list_lookup_alter_eq.
  destruct (lookup_lt_is_Some_2 (heap s) a Ha) as [n Hn]. rewrite Hn. reflexivity.
Qed.

Lemma node_upd_ne a b f s : a <> b -> node (upd a f s) b = node s b.
Proof.
  intros Hab. unfold node, upd; simpl. rewrite list_lookup_alter_ne by exact Hab.
  reflexivity.
Qed.

Lemma node_new n h p r : node (mkState (h ++ [n]) p r) (length h) = n.
Proof.
  unfold node; simpl. rewrite lookup_app_r by lia. rewrite Nat.sub_diag. reflexivity.
Qed.

Lemma root_upd a f s : root (upd a f s) = root s.
Proof. reflexivity. Qed.

Lemma empty_parent_upd a f s : empty_parent (upd a f s) = empty_parent s.
Proof. reflexivity. Qed.

Lemma below_walk s r path : below s r (walk s r path).
Proof.
  revert r. induction path as [|b path IH]; intros r; simpl.
  - constructor.
  - destruct r as [|a].
    + destruct b; simpl; apply IH.
    + destruct b; [apply below_left | apply below_right]; apply IH.
Qed.

(** ** The Empty node (C10, C8) *)

(** C10. Structural queries on [Empty] are total: [left] and [right] give
    [Empty] itself, [height] and [bf] give 0, in every store; reading
    [value] is the one query that raises. *)
Theorem Empty_queries_total (s : State) :
  left s Empty = Empty /\ right s Empty = Empty /\
  height s Empty = 0 /\ bf s Empty = 0 /\
  value s Empty = None /\
  (forall a, value s (Inner a) <> None).
Proof. repeat split; try reflexivity. intros a; discriminate. Qed.

(** C8, as worded, fails: constructing the first node of a tree assigns
    the parent of [Empty]. *)
Lemma Empty_parent_is_assigned : ~ Empty_never_assigned.
Proof.
  intros (Hnew & _). specialize (Hnew 1 init). vm_compute in Hnew. discriminate.
Qed.

(** C8, amended. [Empty] keeps its children, height and balance factor in
    every store, but its [parent] attribute is written: constructing a node
    sets it to the new node, and a child-slot write that stores [Empty]
    sets it to the written node. *)
Theorem Empty_parent_written (s : State) :
  (left s Empty = Empty /\ right s Empty = Empty /\ height s Empty = 0 /\ bf s Empty = 0) /\
  (forall v, empty_parent (snd (new_inner v s)) = Some (length (heap s))) /\
  (forall a, empty_parent (set_left a Empty s) = Some a) /\
  (forall a, empty_parent (set_right a Empty s) = Some a).
Proof.
  split; [repeat split |]. split; [| split].
  - intros v. unfold new_inner, recompute_height. cbn [snd]. rewrite empty_parent_upd.
    unfold left at 1. rewrite node_new. cbn [_left assign_parent heap root].
    unfold right. rewrite node_new. reflexivity.
  - intros a. unfold set_left, recompute_height. rewrite empty_parent_upd.
    destruct (decide (a < length (heap s))%nat) as [Ha|Ha].
    + unfold left. rewrite node_upd_eq by exact Ha. reflexivity.
    + unfold left, node, upd. cbn [heap].
      rewrite list_lookup_alter_eq, (lookup_ge_None_2 (heap s) a) by lia. reflexivity.
  - intros a. unfold set_right, recompute_height. rewrite empty_parent_upd.
    destruct (decide (a < length (heap s))%nat) as [Ha|Ha].
    + unfold right. rewrite node_upd_eq by exact Ha. reflexivity.
    + unfold right, node, upd. cbn [heap].
      rewrite list_lookup_alter_eq, (lookup_ge_None_2 (heap s) a) by lia. reflexivity.
Qed.

(** ** The two no-op conditions (C5) *)





(** ** Runs on which the invariants break (C1, C2, C3, C4, C9) *)

(** C1. After inserting 1, 2, 4, 5, 6, 3, 7 and removing 1, every call has
    returned normally and the reachable node with key 2 has balance
    factor +2. *)
Theorem balance_broken_after_remove :
  exists s,
    run 20 [Insert 1; Insert 2; Insert 4; Insert 5; Insert 6; Insert 3;
            Insert 7; Remove 1] init = Ret tt s /\
    reachable s (Inner 1) /\ value s (Inner 1) = Some 2 /\
    bf s (Inner 1) = 2 /\ ~ balance_inv s.
Proof.
  eexists. split; [vm_compute; reflexivity|].
  assert (Hr : reachable
    (store_of [Insert 1; Insert 2; Insert 4; Insert 5; Insert 6; Insert 3;
               Insert 7; Remove 1]) (Inner 1)).
  { exact (below_walk _ _ [true]). }
  split; [exact Hr|]. split; [reflexivity|]. split; [reflexivity|].
  intros Hinv. specialize (Hinv _ Hr). vm_compute in Hinv.
  destruct Hinv as [_ Hle]. apply Hle. reflexivity.
Qed.

(** C2. After inserting 2, 1, 3, 4 the root caches height 2 although its
    children cache heights 1 and 2. *)
Theorem height_stale_after_insert :
  exists s,
    run 20 [Insert 2; Insert 1; Insert 3; Insert 4] init = Ret tt s /\
    root s = Inner 0 /\ height s (Inner 0) = 2 /\
    height s (left s (Inner 0)) = 1 /\ height s (right s (Inner 0)) = 2 /\
    ~ height_inv s.
Proof.
  eexists. split; [vm_compute; reflexivity|].
  repeat (split; [reflexivity|]).
  intros [_ Hinv]. specialize (Hinv 0%nat (below_here _ _)).
  vm_compute in Hinv. discriminate.
Qed.

(** C3. After inserting 1 and 2, removing 1 and inserting 1 again, the root
    holds key 1 and so does its left child. *)
Theorem order_broken_after_reinsert :
  exists s,
    run 20 [Insert 1; Insert 2; Remove 1; Insert 1] init = Ret tt s /\
    root s = Inner 2 /\ value s (Inner 2) = Some 1 /\
    left s (Inner 2) = Inner 0 /\ value s (Inner 0) = Some 1 /\
    ~ bst_inv s.
Proof.
  eexists. split; [vm_compute; reflexivity|].
  repeat (split; [reflexivity|]).
  intros Hinv. destruct (Hinv 2%nat 0%nat (below_here _ _)) as [Hl _].
  specialize (Hl (below_here _ _)). vm_compute in Hl. discriminate.
Qed.

(** C9. After inserting 1 and 2 and removing 1, the root is the node with
    key 2 and its parent link still points to the removed node. *)
Theorem root_parent_stale_after_remove :
  exists s,
    run 20 [Insert 1; Insert 2; Remove 1] init = Ret tt s /\
    root s = Inner 1 /\ value s (Inner 1) = Some 2 /\
    get_parent s (Inner 1) = Some 0%nat /\ ~ parent_inv s.
Proof.
  eexists. split; [vm_compute; reflexivity|].
  repeat (split; [reflexivity|]).
  intros [Hroot _]. specialize (Hroot 1%nat eq_refl). vm_compute in Hroot.
  discriminate.
Qed.

(** ** The effect of attribute writes on the store *)

Lemma node_upd a f s k :
  (a < length (heap s))%nat ->
  node (upd a f s) k = if decide (k = a) then f (node s a) else node s k.
Proof.
  intros Ha. case_decide as Hk.
  - subst k. apply node_upd_eq, Ha.
  - apply node_upd_ne. congruence.
Qed.

Lemma length_assign_parent r p s :
  length (heap (assign_parent r p s)) = length (heap s).
Proof. destruct r; simpl; [reflexivity | apply length_alter]. Qed.

Lemma root_assign_parent r p s : root (assign_parent r p s) = root s.
Proof. destruct r; reflexivity. Qed.

Lemma empty_parent_assign_parent r p s :
  empty_parent (assign_parent r p s) =
  if decide (r = Empty) then p else empty_parent s.
Proof. destruct r; reflexivity. Qed.

Lemma node_assign_parent r p s k :
  valid s r ->
  node (assign_parent r p s) k =
  if decide (r = Inner k) then with_parent p (node s k) else node s k.
Proof.
  intros Hv. destruct r as [|a]; simpl.
  - reflexivity.
  - simpl in Hv. rewrite node_upd by exact Hv.
    repeat case_decide; subst; try congruence.
Qed.

Lemma left_assign_parent r p s q :
  valid s r -> left (assign_parent r p s) q = left s q.
Proof.
  intros Hv. destruct q as [|k]; [reflexivity|]. unfold left.
  rewrite node_assign_parent by exact Hv. case_decide; reflexivity.
Qed.

Lemma right_assign_parent r p s q :
  valid s r -> right (assign_parent r p s) q = right s q.
Proof.
  intros Hv. destruct q as [|k]; [reflexivity|]. unfold right.
  rewrite node_assign_parent by exact Hv. case_decide; reflexivity.
Qed.

Lemma height_assign_parent r p s q :
  valid s r -> height (assign_parent r p s) q = height s q.
Proof.
  intros Hv. destruct q as [|k]; [reflexivity|]. unfold height.
  rewrite node_assign_parent by exact Hv. case_decide; reflexivity.
Qed.

Lemma valid_upd a f s r : valid (upd a f s) r <-> valid s r.
Proof. destruct r; simpl; [tauto|]. rewrite length_alter. tauto. Qed.

Lemma height_upd_keep a f s q :
  (forall n, _height (f n) = _height n) ->
  height (upd a f s) q = height s q.
Proof.
  intros Hf. destruct q as [|k]; [reflexivity|]. unfold height.
  destruct (decide (a < length (heap s))%nat) as [Ha|Ha].
  - rewrite node_upd by exact Ha. case_decide; subst; [apply Hf | reflexivity].
  - unfold node, upd; simpl.
    destruct (decide (k = a)) as [->|Hk].
    + rewrite list_lookup_alter_eq, (lookup_ge_None_2 (heap s) a) by lia. reflexivity.
    + rewrite list_lookup_alter_ne by congruence. reflexivity.
Qed.

(** The [right] setter, as a function of the store before it. *)
Lemma set_right_spec a v s :
  (a < length (heap s))%nat -> valid s v ->
  let s' := set_right a v s in
  length (heap s') = length (heap s) /\
  root s' = root s /\
  empty_parent s' = (if decide (v = Empty) then Some a else empty_parent s) /\
  forall k, node s' k =
    if decide (k = a) then
      mkInner (_value (node s a)) (_left (node s a)) v
              (Z.max (height s (_left (node s a))) (height s v) + 1)
              (if decide (v = Inner a) then Some a else parent (node s a))
    else if decide (v = Inner k) then with_parent (Some a) (node s k)
    else node s k.
Proof.
  intros Ha Hv. unfold set_right, recompute_height.
  assert (Hr : right (upd a (with_right v) s) (Inner a) = v).
  { unfold right. rewrite node_upd_eq by exact Ha. reflexivity. }
  rewrite Hr.
  set (s1 := upd a (with_right v) s).
  assert (Hv1 : valid s1 v) by (apply valid_upd; exact Hv).
  set (s2 := assign_parent v (Some a) s1).
  assert (Ha2 : (a < length (heap s2))%nat).
  { unfold s2. rewrite length_assign_parent. unfold s1. rewrite length_upd. exact Ha. }
  assert (Hn2 : node s2 a =
                mkInner (_value (node s a)) (_left (node s a)) v (_height (node s a))
                        (if decide (v = Inner a) then Some a else parent (node s a))).
  { unfold s2. rewrite node_assign_parent by exact Hv1.
    unfold s1. rewrite node_upd_eq by exact Ha. case_decide; reflexivity. }
  assert (Hh2 : forall q, height s2 q = height s q).
  { intros q. unfold s2. rewrite height_assign_parent by exact Hv1.
    unfold s1. apply height_upd_keep. reflexivity. }
  cbn zeta. split; [| split; [| split]].
  - rewrite length_upd. unfold s2. rewrite length_assign_parent. apply length_upd.
  - rewrite root_upd. unfold s2. rewrite root_assign_parent. reflexivity.
  - rewrite empty_parent_upd. unfold s2. rewrite empty_parent_assign_parent. reflexivity.
  - intros k. rewrite node_upd by exact Ha2. destruct (decide (k = a)) as [Hk|Hk].
    + unfold left, right. rewrite Hn2. cbn [_left _right with_height _value parent].
      rewrite !Hh2. reflexivity.
    + unfold s2. rewrite node_assign_parent by exact Hv1.
      unfold s1. rewrite node_upd_ne by congruence. reflexivity.
Qed.

(** The [left] setter, as a function of the store before it. *)
Lemma set_left_spec a v s :
  (a < length (heap s))%nat -> valid s v ->
  let s' := set_left a v s in
  length (heap s') = length (heap s) /\
  root s' = root s /\
  empty_parent s' = (if decide (v = Empty) then Some a else empty_parent s) /\
  forall k, node s' k =
    if decide (k = a) then
      mkInner (_value (node s a)) v (_right (node s a))
              (Z.max (height s v) (height s (_right (node s a))) + 1)
              (if decide (v = Inner a) then Some a else parent (node s a))
    else if decide (v = Inner k) then with_parent (Some a) (node s k)
    else node s k.
Proof.
  intros Ha Hv. unfold set_left, recompute_height.
  assert (Hr : left (upd a (with_left v) s) (Inner a) = v).
  { unfold left. rewrite node_upd_eq by exact Ha. reflexivity. }
  rewrite Hr.
  set (s1 := upd a (with_left v) s).
  assert (Hv1 : valid s1 v) by (apply valid_upd; exact Hv).
  set (s2 := assign_parent v (Some a) s1).
  assert (Ha2 : (a < length (heap s2))%nat).
  { unfold s2. rewrite length_assign_parent. unfold s1. rewrite length_upd. exact Ha. }
  assert (Hn2 : node s2 a =
                mkInner (_value (node s a)) v (_right (node s a)) (_height (node s a))
                        (if decide (v = Inner a) then Some a else parent (node s a))).
  { unfold s2. rewrite node_assign_parent by exact Hv1.
    unfold s1. rewrite node_upd_eq by exact Ha. case_decide; reflexivity. }
  assert (Hh2 : forall q, height s2 q = height s q).
  { intros q. unfold s2. rewrite height_assign_parent by exact Hv1.
    unfold s1. apply height_upd_keep. reflexivity. }
  cbn zeta. split; [| split; [| split]].
  - rewrite length_upd. unfold s2. rewrite length_assign_parent. apply length_upd.
  - rewrite root_upd. unfold s2. rewrite root_assign_parent. reflexivity.
  - rewrite empty_parent_upd. unfold s2. rewrite empty_parent_assign_parent. reflexivity.
  - intros k. rewrite node_upd by exact Ha2. destruct (decide (k = a)) as [Hk|Hk].
    + unfold left, right. rewrite Hn2. cbn [_left _right with_height _value parent].
      rewrite !Hh2. reflexivity.
    + unfold s2. rewrite node_assign_parent by exact Hv1.
      unfold s1. rewrite node_upd_ne by congruence. reflexivity.
Qed.

(** ** Rotations *)

(** Settle the [decide]s of the goal from the distinctness facts at hand. *)
Ltac decides :=
  repeat match goal with
         | |- context [decide ?P] =>
             destruct (decide P) as [?|?]; try congruence
         end.

Lemma node_eq_refl fuel s k : node_eq fuel s (Inner k) (Inner k) = Some true.
Proof. destruct fuel; simpl; rewrite Nat.eqb_refl; reflexivity. Qed.

Lemma node_eq_other_key fuel s u k :
  fuel <> O -> value s u <> value s (Inner k) ->
  node_eq fuel s u (Inner k) = Some false.
Proof.
  intros Hf Hv. destruct fuel as [|fuel]; [congruence|].
  destruct u as [|c]; [reflexivity|]. simpl.
  destruct (Nat.eqb_spec c k) as [->|Hck]; [congruence|].
  destruct (Z.eqb_spec (_value (node s c)) (_value (node s k))) as [He|He].
  - exfalso. apply Hv. simpl. congruence.
  - reflexivity.
Qed.

Lemma set_parent_root fuel new old s :
  get_parent s old = None ->
  _set_parent fuel new old s = Ret tt (assign_parent new None (set_root new s)).
Proof. intros H. unfold _set_parent, bind, get, put. rewrite H. reflexivity. Qed.

Lemma set_parent_inner fuel new old s p il :
  get_parent s old = Some p ->
  is_left fuel (assign_parent new (Some p) s) old = Some il ->
  get_parent (assign_parent new (Some p) s) new = Some p ->
  _set_parent fuel new old s =
  Ret tt ((if il then set_left p new else set_right p new)
            (assign_parent new (Some p) s)).
Proof.
  intros H Hil Hp. unfold _set_parent, bind, get, put. rewrite H.
  rewrite Hil, Hp. destruct il; reflexivity.
Qed.

(** Reattaching [y] in the place of [x]: the store after [_set_parent]. *)
Lemma set_parent_spec fuel s x y :
  (x < length (heap s))%nat -> (y < length (heap s))%nat -> x <> y -> fuel <> O ->
  match parent (node s x) with
  | None => True
  | Some p =>
      (p < length (heap s))%nat /\ p <> x /\ p <> y /\
      (left s (Inner p) = Inner x \/
       value s (left s (Inner p)) <> value s (Inner x))
  end ->
  exists s1, _set_parent fuel (Inner y) (Inner x) s = Ret tt s1 /\
    length (heap s1) = length (heap s) /\
    root s1 = match parent (node s x) with None => Inner y | Some _ => root s end /\
    empty_parent s1 = empty_parent s /\
    node s1 y = with_parent (parent (node s x)) (node s y) /\
    (forall p, parent (node s x) = Some p ->
       node s1 p =
       if decide (left s (Inner p) = Inner x)
       then with_height (Z.max (height s (Inner y)) (height s (right s (Inner p))) + 1)
                        (with_left (Inner y) (node s p))
       else with_height (Z.max (height s (left s (Inner p))) (height s (Inner y)) + 1)
                        (with_right (Inner y) (node s p))) /\
    (forall k, k <> y -> parent (node s x) <> Some k -> node s1 k = node s k).
Proof.
  intros Hx Hy Hxy Hf Hpar.
  destruct (parent (node s x)) as [p|] eqn:Epar.
  - destruct Hpar as (Hp & Hpx & Hpy & Hleft).
    set (s0 := assign_parent (Inner y) (Some p) s).
    assert (Hn0 : forall k, node s0 k =
              if decide (k = y) then with_parent (Some p) (node s y) else node s k).
    { intros k. unfold s0. rewrite node_assign_parent by exact Hy.
      repeat case_decide; subst; congruence. }
    assert (Hl0 : length (heap s0) = length (heap s)) by apply length_assign_parent.
    assert (Hil : is_left fuel s0 (Inner x) =
                  Some (bool_decide (left s (Inner p) = Inner x))).
    { unfold is_left, get_parent. rewrite Hn0, decide_False by congruence.
      rewrite Epar. unfold left at 1. rewrite Hn0, decide_False by congruence.
      fold (left s (Inner p)).
      destruct Hleft as [Hl|Hl].
      - rewrite Hl, bool_decide_eq_true_2 by reflexivity. apply node_eq_refl.
      - rewrite bool_decide_eq_false_2 by (intros E; apply Hl; rewrite E; reflexivity).
        apply node_eq_other_key; [exact Hf|].
        unfold value at 2. rewrite Hn0, decide_False by congruence.
        destruct (left s (Inner p)) as [|c] eqn:El; [discriminate|].
        unfold value in Hl |- *. rewrite Hn0.
        case_decide; subst; exact Hl. }
    assert (Hp0 : get_parent s0 (Inner y) = Some p).
    { unfold get_parent. rewrite Hn0, decide_True by reflexivity. reflexivity. }
    assert (Hh0 : forall q, height s0 q = height s q).
    { intros q. apply height_assign_parent. exact Hy. }
    destruct (decide (left s (Inner p) = Inner x)) as [Hl|Hl].
    + rewrite bool_decide_eq_true_2 in Hil by exact Hl.
      rewrite (set_parent_inner fuel (Inner y) (Inner x) s p _ Epar Hil Hp0).
      cbv beta iota. eexists. split; [reflexivity|]. fold s0.
      destruct (set_left_spec p (Inner y) s0) as (L1 & R1 & E1 & N1);
        [lia | unfold valid; lia |].
      split; [lia|]. split; [rewrite R1; apply root_assign_parent|].
      split; [rewrite E1, decide_False by discriminate; reflexivity|].
      split; [| split].
      * rewrite N1, !Hn0. decides; reflexivity.
      * intros p' Hp'. injection Hp' as <-. rewrite N1, !Hn0, !Hh0.
        unfold left, right in *. decides; reflexivity.
      * intros k Hky Hkp. rewrite N1, !Hn0. decides; reflexivity.
    + rewrite bool_decide_eq_false_2 in Hil by exact Hl.
      rewrite (set_parent_inner fuel (Inner y) (Inner x) s p _ Epar Hil Hp0).
      cbv beta iota. eexists. split; [reflexivity|]. fold s0.
      destruct (set_right_spec p (Inner y) s0) as (L1 & R1 & E1 & N1);
        [lia | unfold valid; lia |].
      split; [lia|]. split; [rewrite R1; apply root_assign_parent|].
      split; [rewrite E1, decide_False by discriminate; reflexivity|].
      split; [| split].
      * rewrite N1, !Hn0. decides; reflexivity.
      * intros p' Hp'. injection Hp' as <-. rewrite N1, !Hn0, !Hh0.
        unfold left, right in *. decides; reflexivity.
      * intros k Hky Hkp. rewrite N1, !Hn0. decides; reflexivity.
  - rewrite set_parent_root by (simpl; exact Epar).
    eexists. split; [reflexivity|].
    assert (Hn : forall k, node (assign_parent (Inner y) None (set_root (Inner y) s)) k =
              if decide (k = y) then with_parent None (node s y) else node s k).
    { intros k. rewrite node_assign_parent by exact Hy.
      repeat case_decide; try congruence; simplify_eq; reflexivity. }
    split; [rewrite length_assign_parent; reflexivity|].
    split; [rewrite root_assign_parent; reflexivity|].
    split; [reflexivity|]. split; [| split].
    + rewrite Hn, decide_True by reflexivity. reflexivity.
    + intros p Hp. discriminate.
    + intros k Hky _. rewrite Hn, decide_False by exact Hky. reflexivity.
Qed.

Lemma valid_length s s' r :
  length (heap s') = length (heap s) -> valid s r -> valid s' r.
Proof. intros Hl. destruct r; simpl; [tauto | lia]. Qed.

Lemma valid_of_tree s r par t : tree_at s r par t -> valid s r.
Proof. destruct t; simpl; [intros ->; exact I | intros (-> & Ha & _); exact Ha]. Qed.

(** [_rot_left]: it returns [y] and leaves the store [rot_left_post]
    describes. *)
Lemma rot_left_spec fuel s x y :
  right s (Inner x) = Inner y ->
  rot_ready fuel s x y (left s (Inner x)) (left s (Inner y)) (right s (Inner y)) ->
  exists s', _rot_left fuel x s = Ret y s' /\ rot_left_post s x y s'.
Proof.
  intros Hxy (Hx & Hy & Hne & Hvb & Hbx & Hby & Hcx & Hf & Hpar).
  destruct (set_parent_spec fuel s x y Hx Hy Hne Hf)
    as (s1 & Hsp & L1 & R1 & E1 & Ny1 & Np1 & No1).
  { destruct (parent (node s x)); [|exact I]. tauto. }
  assert (Hh1 : forall q, (forall p, parent (node s x) = Some p -> q <> Inner p) ->
                height s1 q = height s q).
  { intros [|k] Hq; [reflexivity|]. unfold height.
    destruct (decide (k = y)) as [->|Hk]; [rewrite Ny1; reflexivity|].
    rewrite No1; [reflexivity | exact Hk |]. intros E. apply (Hq k E). reflexivity. }
  assert (Hx1 : node s1 x = node s x).
  { apply No1; [exact Hne|]. destruct (parent (node s x)); [|discriminate].
    intros E. injection E as ->. tauto. }
  unfold _rot_left, bind, get, put, ret. rewrite Hxy, Hsp.
  set (a := left s (Inner x)) in *. set (b := left s (Inner y)) in *.
  set (c := right s (Inner y)) in *.
  destruct (set_right_spec x b s1) as (L2 & R2 & E2 & N2);
    [lia | apply (valid_length s); [exact L1 | exact Hvb] |].
  set (s2 := set_right x b s1) in *.
  destruct (set_left_spec y (Inner x) s2) as (L3 & R3 & E3 & N3);
    [lia | unfold valid; lia |].
  set (s3 := set_left y (Inner x) s2) in *.
  assert (Ha1 : height s1 a = height s a).
  { apply Hh1. intros p Hp. rewrite Hp in Hpar. tauto. }
  assert (Hb1 : height s1 b = height s b).
  { apply Hh1. intros p Hp. rewrite Hp in Hpar. tauto. }
  assert (Hc1 : height s1 c = height s c).
  { apply Hh1. intros p Hp. rewrite Hp in Hpar. tauto. }
  assert (Hx2 : node s2 x =
     mkInner (_value (node s x)) a b (Z.max (height s a) (height s b) + 1)
             (parent (node s x))).
  { rewrite N2, decide_True by reflexivity. rewrite Hx1. fold (left s (Inner x)).
    fold a. rewrite Ha1, Hb1. rewrite decide_False by exact Hbx. reflexivity. }
  assert (Hy2 : node s2 y = with_parent (parent (node s x)) (node s y)).
  { rewrite N2. decides; exact Ny1. }
  assert (Hc2 : height s2 c = height s c).
  { rewrite <- Hc1. destruct c as [|k]; [reflexivity|]. unfold height.
    rewrite N2. decides; reflexivity. }
  eexists. split; [reflexivity|]. fold s2 s3. unfold rot_left_post. cbv zeta.
  fold a b c.
  split; [lia|]. split; [| split; [| split; [| split; [| split; [| split]]]]].
  - rewrite N3. decides; rewrite Hx2; reflexivity.
  - rewrite N3, decide_True by reflexivity. rewrite decide_False by congruence.
    rewrite Hy2. cbn [with_parent _value _right parent]. fold (right s (Inner y)).
    fold c. rewrite Hc2. unfold height at 1. rewrite Hx2. reflexivity.
  - rewrite R3, R2. exact R1.
  - rewrite E3, decide_False by discriminate. rewrite E2, E1.
    destruct b; decides; reflexivity.
  - intros k Hk.
    assert (Hkp : parent (node s x) <> Some k).
    { intros E. rewrite E in Hpar. destruct Hpar as (_ & _ & _ & _ & Hbp & _). congruence. }
    rewrite N3. decides; rewrite N2; decides; rewrite No1; congruence.
  - intros p Hp. rewrite Hp in Hpar. destruct Hpar as (Hpl & Hpx & Hpy & Hap & Hbp & Hcp & _).
    rewrite <- (Np1 p Hp). rewrite N3. decides; rewrite N2; decides; reflexivity.
  - intros k Hkx Hky Hkb Hkp. rewrite N3. decides; rewrite N2; decides.
    apply No1; assumption.
Qed.

(** [_rot_right], the mirror image. *)
Lemma rot_right_spec fuel s x y :
  left s (Inner x) = Inner y ->
  rot_ready fuel s x y (right s (Inner x)) (right s (Inner y)) (left s (Inner y)) ->
  exists s', _rot_right fuel x s = Ret y s' /\ rot_right_post s x y s'.
Proof.
  intros Hxy (Hx & Hy & Hne & Hvb & Hbx & Hby & Hcx & Hf & Hpar).
  destruct (set_parent_spec fuel s x y Hx Hy Hne Hf)
    as (s1 & Hsp & L1 & R1 & E1 & Ny1 & Np1 & No1).
  { destruct (parent (node s x)); [|exact I]. tauto. }
  assert (Hh1 : forall q, (forall p, parent (node s x) = Some p -> q <> Inner p) ->
                height s1 q = height s q).
  { intros [|k] Hq; [reflexivity|]. unfold height.
    destruct (decide (k = y)) as [->|Hk]; [rewrite Ny1; reflexivity|].
    rewrite No1; [reflexivity | exact Hk |]. intros E. apply (Hq k E). reflexivity. }
  assert (Hx1 : node s1 x = node s x).
  { apply No1; [exact Hne|]. destruct (parent (node s x)); [|discriminate].
    intros E. injection E as ->. tauto. }
  unfold _rot_right, bind, get, put, ret. rewrite Hxy, Hsp.
  set (a := right s (Inner x)) in *. set (b := right s (Inner y)) in *.
  set (c := left s (Inner y)) in *.
  destruct (set_left_spec x b s1) as (L2 & R2 & E2 & N2);
    [lia | apply (valid_length s); [exact L1 | exact Hvb] |].
  set (s2 := set_left x b s1) in *.
  destruct (set_right_spec y (Inner x) s2) as (L3 & R3 & E3 & N3);
    [lia | unfold valid; lia |].
  set (s3 := set_right y (Inner x) s2) in *.
  assert (Ha1 : height s1 a = height s a).
  { apply Hh1. intros p Hp. rewrite Hp in Hpar. tauto. }
  assert (Hb1 : height s1 b = height s b).
  { apply Hh1. intros p Hp. rewrite Hp in Hpar. tauto. }
  assert (Hc1 : height s1 c = height s c).
  { apply Hh1. intros p Hp. rewrite Hp in Hpar. tauto. }
  assert (Hx2 : node s2 x =
     mkInner (_value (node s x)) b a (Z.max (height s b) (height s a) + 1)
             (parent (node s x))).
  { rewrite N2, decide_True by reflexivity. rewrite Hx1. fold (right s (Inner x)).
    fold a. rewrite Ha1, Hb1. rewrite decide_False by exact Hbx. reflexivity. }
  assert (Hy2 : node s2 y = with_parent (parent (node s x)) (node s y)).
  { rewrite N2. decides; exact Ny1. }
  assert (Hc2 : height s2 c = height s c).
  { rewrite <- Hc1. destruct c as [|k]; [reflexivity|]. unfold height.
    rewrite N2. decides; reflexivity. }
  eexists. split; [reflexivity|]. fold s2 s3. unfold rot_right_post. cbv zeta.
  fold a b c.
  split; [lia|]. split; [| split; [| split; [| split; [| split; [| split]]]]].
  - rewrite N3. decides; rewrite Hx2; reflexivity.
  - rewrite N3, decide_True by reflexivity. rewrite decide_False by congruence.
    rewrite Hy2. cbn [with_parent _value _left parent]. fold (left s (Inner y)).
    fold c. rewrite Hc2. unfold height at 2. rewrite Hx2. reflexivity.
  - rewrite R3, R2. exact R1.
  - rewrite E3, decide_False by discriminate. rewrite E2, E1.
    destruct b; decides; reflexivity.
  - intros k Hk.
    assert (Hkp : parent (node s x) <> Some k).
    { intros E. rewrite E in Hpar. destruct Hpar as (_ & _ & _ & _ & Hbp & _). congruence. }
    rewrite N3. decides; rewrite N2; decides; rewrite No1; congruence.
  - intros p Hp. rewrite Hp in Hpar. destruct Hpar as (Hpl & Hpx & Hpy & Hap & Hbp & Hcp & _).
    rewrite <- (Np1 p Hp). rewrite N3. decides; rewrite N2; decides; reflexivity.
  - intros k Hkx Hky Hkb Hkp. rewrite N3. decides; rewrite N2; decides.
    apply No1; assumption.
Qed.

(** ** Regions *)

Lemma tree_top s r par t : tree_at s r par t -> r = top t.
Proof. destruct t; simpl; [tauto | intros (-> & _); reflexivity]. Qed.

Lemma top_in t k : top t = Inner k -> k ∈ addrs t.
Proof. destruct t; simpl; [discriminate|]. intros [= ->]. set_solver. Qed.

Lemma top_not_in t k : k ∉ addrs t -> top t <> Inner k.
Proof. intros Hk E. apply Hk, top_in, E. Qed.

Ltac distinct := first [apply top_not_in; set_solver | set_solver].

(** Cached heights in a consistent region are not negative. *)
Lemma height_nonneg s t : forall r par,
  tree_at s r par t -> heights_ok s t -> 0 <= height s r.
Proof.
  induction t as [|l IHl a r' IHr]; intros r par Ht Hh.
  - simpl in Ht. subst r. simpl. lia.
  - simpl in Ht. destruct Ht as (-> & Ha & _ & Hl & Hr).
    unfold heights_ok in Hh. simpl in Hh.
    apply Forall_cons in Hh as [Hok Hrest]. apply Forall_app in Hrest as [Hhl Hhr].
    specialize (IHl _ _ Hl Hhl). unfold height_ok in Hok. rewrite Hok.
    unfold left. lia.
Qed.

(** After a left rotation only [x], [y] and the former parent of [x]
    may cache another height, and no object holds another key. *)
Lemma rot_left_post_height s x y s' q :
  rot_left_post s x y s' ->
  q <> Inner x -> q <> Inner y ->
  (forall p, parent (node s x) = Some p -> q <> Inner p) ->
  height s' q = height s q.
Proof.
  intros (_ & _ & _ & _ & _ & Hb & _ & Ho) Hx Hy Hp.
  destruct q as [|k]; [reflexivity|]. unfold height.
  destruct (decide (left s (Inner y) = Inner k)) as [E|E].
  - rewrite (Hb k E). reflexivity.
  - rewrite Ho; [reflexivity | congruence | congruence | exact E |].
    intros Ek. apply (Hp k Ek). reflexivity.
Qed.

Lemma rot_right_post_height s x y s' q :
  rot_right_post s x y s' ->
  q <> Inner x -> q <> Inner y ->
  (forall p, parent (node s x) = Some p -> q <> Inner p) ->
  height s' q = height s q.
Proof.
  intros (_ & _ & _ & _ & _ & Hb & _ & Ho) Hx Hy Hp.
  destruct q as [|k]; [reflexivity|]. unfold height.
  destruct (decide (right s (Inner y) = Inner k)) as [E|E].
  - rewrite (Hb k E). reflexivity.
  - rewrite Ho; [reflexivity | congruence | congruence | exact E |].
    intros Ek. apply (Hp k Ek). reflexivity.
Qed.

Lemma rot_right_post_value s x y s' k :
  rot_right_post s x y s' -> _value (node s' k) = _value (node s k).
Proof.
  intros (_ & Hx & Hy & _ & _ & Hb & Hp & Ho).
  destruct (decide (k = x)) as [->|Nx]; [rewrite Hx; reflexivity|].
  destruct (decide (k = y)) as [->|Ny]; [rewrite Hy; reflexivity|].
  destruct (decide (right s (Inner y) = Inner k)) as [E|E];
    [rewrite (Hb k E); reflexivity|].
  destruct (decide (parent (node s x) = Some k)) as [Ep|Ep].
  - rewrite (Hp k Ep). case_decide; reflexivity.
  - rewrite Ho by assumption. reflexivity.
Qed.

Lemma rot_left_post_value s x y s' k :
  rot_left_post s x y s' -> _value (node s' k) = _value (node s k).
Proof.
  intros (_ & Hx & Hy & _ & _ & Hb & Hp & Ho).
  destruct (decide (k = x)) as [->|Nx]; [rewrite Hx; reflexivity|].
  destruct (decide (k = y)) as [->|Ny]; [rewrite Hy; reflexivity|].
  destruct (decide (left s (Inner y) = Inner k)) as [E|E];
    [rewrite (Hb k E); reflexivity|].
  destruct (decide (parent (node s x) = Some k)) as [Ep|Ep].
  - rewrite (Hp k Ep). case_decide; reflexivity.
  - rewrite Ho by assumption. reflexivity.
Qed.

(** What a region with [x] on top and [y] as its right child gives a left
    rotation at [x]. *)
Lemma rot_ready_left fuel s x y ta tb tc :
  fuel <> O ->
  tree_at s (Inner x) (parent (node s x)) (Br ta x (Br tb y tc)) ->
  NoDup (addrs (Br ta x (Br tb y tc))) ->
  attached s x (Br ta x (Br tb y tc)) ->
  right s (Inner x) = Inner y /\
  left s (Inner x) = top ta /\ left s (Inner y) = top tb /\
  right s (Inner y) = top tc /\
  rot_ready fuel s x y (top ta) (top tb) (top tc).
Proof.
  intros Hf Ht Hnd Hat. simpl in Ht, Hnd.
  destruct Ht as (_ & Hx & _ & Hta & Hy1 & Hy & Hpy & Htb & Htc).
  apply NoDup_cons in Hnd as [Nx Hnd]. apply NoDup_app in Hnd as (_ & Nay & Hnd).
  apply NoDup_cons in Hnd as [Ny _].
  pose proof (tree_top _ _ _ _ Hta) as Ea. pose proof (tree_top _ _ _ _ Htb) as Eb.
  pose proof (tree_top _ _ _ _ Htc) as Ec.
  unfold left, right. rewrite <- Ea, <- Eb, <- Ec.
  split; [exact Hy1|]. repeat (split; [reflexivity|]).
  rewrite Ea, Eb, Ec.
  split; [exact Hx|]. split; [exact Hy|]. split; [set_solver|].
  split; [rewrite <- Eb; apply (valid_of_tree _ _ _ _ Htb)|].
  split; [apply top_not_in; set_solver|]. split; [apply top_not_in; set_solver|].
  split; [apply top_not_in; set_solver|]. split; [exact Hf|].
  unfold attached in Hat. destruct (parent (node s x)) as [p|]; [|exact I].
  destruct Hat as (Hp & Np & Hslot). simpl in Np. revert Hslot.
  split; [exact Hp|]. split; [set_solver|]. split; [set_solver|].
  split; [apply top_not_in; set_solver|]. split; [apply top_not_in; set_solver|].
  split; [apply top_not_in; set_solver|].
  destruct Hslot as [Hl|[_ Hv]]; [left; exact Hl | right; exact Hv].
Qed.

Lemma rot_ready_right fuel s x y ta tb tc :
  fuel <> O ->
  tree_at s (Inner x) (parent (node s x)) (Br (Br tc y tb) x ta) ->
  NoDup (addrs (Br (Br tc y tb) x ta)) ->
  attached s x (Br (Br tc y tb) x ta) ->
  left s (Inner x) = Inner y /\
  right s (Inner x) = top ta /\ right s (Inner y) = top tb /\
  left s (Inner y) = top tc /\
  top ta <> Inner x /\ top ta <> Inner y /\ top tc <> Inner y /\
  rot_ready fuel s x y (top ta) (top tb) (top tc).
Proof.
  intros Hf Ht Hnd Hat. simpl in Ht, Hnd.
  destruct Ht as (_ & Hx & _ & (Hxy & Hy & Hpy & Htc & Htb) & Hta).
  pose proof (tree_top _ _ _ _ Hta) as Ea. pose proof (tree_top _ _ _ _ Htb) as Eb.
  pose proof (tree_top _ _ _ _ Htc) as Ec.
  apply NoDup_cons in Hnd as [Nx Hnd]. apply NoDup_cons in Hnd as [Ny Hnd].
  apply NoDup_app in Hnd as (_ & Ncb & _).
  unfold left, right. rewrite Ea, Eb, Ec.
  split; [exact Hxy|]. repeat (split; [reflexivity|]).
  split; [distinct|]. split; [distinct|]. split; [distinct|].
  split; [exact Hx|]. split; [exact Hy|]. split; [set_solver|].
  split; [rewrite <- Eb; apply (valid_of_tree _ _ _ _ Htb)|].
  split; [distinct|]. split; [distinct|]. split; [distinct|]. split; [exact Hf|].
  unfold attached in Hat. destruct (parent (node s x)) as [p|]; [|exact I].
  destruct Hat as (Hp & Np & Hslot). simpl in Np. revert Hslot.
  split; [exact Hp|]. split; [set_solver|]. split; [set_solver|].
  split; [distinct|]. split; [distinct|]. split; [distinct|].
  destruct Hslot as [Hl|[_ Hv]]; [left; exact Hl | right; exact Hv].
Qed.

(** What stays of a region when the store changes elsewhere. *)
Lemma tree_at_frame s s' : forall t r par par',
  length (heap s') = length (heap s) ->
  NoDup (addrs t) ->
  (forall k, k ∈ addrs t ->
     _left (node s' k) = _left (node s k) /\ _right (node s' k) = _right (node s k)) ->
  (forall k, k ∈ addrs t -> Inner k <> r -> parent (node s' k) = parent (node s k)) ->
  (forall a, r = Inner a -> parent (node s' a) = par') ->
  tree_at s r par t -> tree_at s' r par' t.
Proof.
  induction t as [|l IHl a rr IHr]; intros r par par' HL Hnd Hlr Hpar Hroot Ht.
  - exact Ht.
  - simpl in Ht. destruct Ht as (-> & Ha & Hp & Hl & Hr).
    simpl in Hnd. apply NoDup_cons in Hnd as [Na Hnd].
    apply NoDup_app in Hnd as (Ndl & Ndisj & Ndr).
    destruct (Hlr a) as [El Er]; [set_solver|].
    simpl. split; [reflexivity|]. split; [lia|]. split; [apply Hroot; reflexivity|].
    rewrite El, Er. split.
    + apply (IHl _ (Some a) (Some a) HL Ndl); [| | | exact Hl].
      * intros k Hk. apply Hlr. set_solver.
      * intros k Hk _. apply Hpar; [set_solver|]. intros [= ->]. set_solver.
      * intros b Eb. rewrite Hpar.
        -- rewrite Eb in Hl. destruct l; simpl in Hl; [discriminate|].
           destruct Hl as (Eq & _ & Hpb & _). injection Eq as ->. exact Hpb.
        -- pose proof (tree_top _ _ _ _ Hl) as Et. rewrite Eb in Et.
           symmetry in Et. apply top_in in Et. set_solver.
        -- pose proof (tree_top _ _ _ _ Hl) as Et. rewrite Eb in Et.
           symmetry in Et. apply top_in in Et. intros [= ->]. set_solver.
    + apply (IHr _ (Some a) (Some a) HL Ndr); [| | | exact Hr].
      * intros k Hk. apply Hlr. set_solver.
      * intros k Hk _. apply Hpar; [set_solver|]. intros [= ->]. set_solver.
      * intros b Eb. rewrite Hpar.
        -- rewrite Eb in Hr. destruct rr; simpl in Hr; [discriminate|].
           destruct Hr as (Eq & _ & Hpb & _). injection Eq as ->. exact Hpb.
        -- pose proof (tree_top _ _ _ _ Hr) as Et. rewrite Eb in Et.
           symmetry in Et. apply top_in in Et. set_solver.
        -- pose proof (tree_top _ _ _ _ Hr) as Et. rewrite Eb in Et.
           symmetry in Et. apply top_in in Et. intros [= ->]. set_solver.
Qed.

Lemma keys_frame s s' t :
  (forall k, _value (node s' k) = _value (node s k)) -> keys s' t = keys s t.
Proof.
  intros Hv. induction t as [|l IHl a r IHr]; [reflexivity|].
  simpl. rewrite IHl, IHr, Hv. reflexivity.
Qed.

Lemma bst_frame s s' t :
  (forall k, _value (node s' k) = _value (node s k)) -> bst s t -> bst s' t.
Proof.
  intros Hv. induction t as [|l IHl a r IHr]; [tauto|].
  simpl. rewrite !(keys_frame s s') by exact Hv. rewrite Hv. tauto.
Qed.

(** ** Regions after a rotation *)

(** After a left rotation at the top [x] of a tree-shaped region whose
    parent lies outside it, [y] is on top of a tree-shaped region with the
    parent link [x] had, and the keys read in order are the same. *)
Lemma rot_left_region s x y s' ta tb tc :
  rot_left_post s x y s' ->
  tree_at s (Inner x) (parent (node s x)) (Br ta x (Br tb y tc)) ->
  NoDup (addrs (Br ta x (Br tb y tc))) ->
  (forall p, parent (node s x) = Some p -> p ∉ addrs (Br ta x (Br tb y tc))) ->
  tree_at s' (Inner y) (parent (node s x)) (Br (Br ta x tb) y tc) /\
  keys s' (Br (Br ta x tb) y tc) = keys s (Br ta x (Br tb y tc)).
Proof.
  intros Hpost Ht Hnd Hout.
  assert (V : forall k, _value (node s' k) = _value (node s k))
    by (intros k; apply (rot_left_post_value s x y s' k Hpost)).
  destruct Hpost as (HL & Nx & Ny & _ & _ & Hb & _ & Ho).
  simpl in Ht. destruct Ht as (_ & Hx & _ & Hta & _ & Hy & _ & Htb & Htc).
  pose proof (tree_top _ _ _ _ Htb) as Eb'.
  change (left s (Inner y) = top tb) in Eb'.
  simpl in Hnd. apply NoDup_cons in Hnd as [Mx Hnd].
  apply NoDup_app in Hnd as (Nda & Dis_a & Hnd). apply NoDup_cons in Hnd as [My Hnd].
  apply NoDup_app in Hnd as (Ndb & Dis_b & Ndc).
  assert (Mp : forall k, k ∈ addrs ta ++ addrs tb ++ addrs tc ->
               parent (node s x) <> Some k).
  { intros k Hk E. specialize (Hout k E). simpl in Hout. clear -Hout Hk. set_solver. }
  assert (Same : forall k, k ∈ addrs ta ++ addrs tb ++ addrs tc ->
                 left s (Inner y) <> Inner k -> node s' k = node s k).
  { intros k Hk Hbk. apply Ho; [| | exact Hbk | apply Mp, Hk].
    - clear -Mx Hk. set_solver.
    - clear -My Dis_a Hk. set_solver. }
  split.
  - simpl. rewrite Ny, Nx. cbn [_left _right parent].
    split; [reflexivity|]. split; [lia|]. split; [reflexivity|].
    split; [split; [reflexivity|]; split; [lia|]; split; [reflexivity|]; split|].
    + (* the left subtree of x *)
      apply (tree_at_frame s s' ta _ (Some x) (Some x) HL Nda); [| | | exact Hta].
      * intros k Hk. rewrite Same; [tauto | set_solver |].
        rewrite Eb'. apply top_not_in. clear -Dis_a Hk. set_solver.
      * intros k Hk _. rewrite Same; [reflexivity | set_solver |].
        rewrite Eb'. apply top_not_in. clear -Dis_a Hk. set_solver.
      * intros a0 E0. fold (left s (Inner x)) in Hta. rewrite E0 in Hta.
        assert (Hin : a0 ∈ addrs ta).
        { pose proof (tree_top _ _ _ _ Hta) as Et. symmetry in Et.
          apply top_in in Et. exact Et. }
        rewrite Same; [| set_solver |].
        -- destruct ta; simpl in Hta; [discriminate|].
           destruct Hta as (Eq & _ & Hp0 & _). injection Eq as ->. exact Hp0.
        -- rewrite Eb'. apply top_not_in. clear -Dis_a Hin. set_solver.
    + (* the subtree that moved from y to x *)
      apply (tree_at_frame s s' tb _ (Some y) (Some x) HL Ndb); [| | | exact Htb].
      * intros k Hk. destruct (decide (left s (Inner y) = Inner k)) as [E|E].
        -- rewrite (Hb k E). split; reflexivity.
        -- rewrite Same; [tauto | set_solver | exact E].
      * intros k Hk Hne. rewrite Same; [reflexivity | set_solver |].
        intros E. apply Hne. symmetry. exact E.
      * intros a0 E0. rewrite (Hb a0 E0). reflexivity.
    + (* the right subtree of y *)
      apply (tree_at_frame s s' tc _ (Some y) (Some y) HL Ndc); [| | | exact Htc].
      * intros k Hk. rewrite Same; [tauto | set_solver |].
        rewrite Eb'. apply top_not_in. clear -Dis_b Hk. set_solver.
      * intros k Hk _. rewrite Same; [reflexivity | set_solver |].
        rewrite Eb'. apply top_not_in. clear -Dis_b Hk. set_solver.
      * intros a0 E0. fold (right s (Inner y)) in Htc. rewrite E0 in Htc.
        assert (Hin : a0 ∈ addrs tc).
        { pose proof (tree_top _ _ _ _ Htc) as Et. symmetry in Et.
          apply top_in in Et. exact Et. }
        rewrite Same; [| set_solver |].
        -- destruct tc; simpl in Htc; [discriminate|].
           destruct Htc as (Eq & _ & Hp0 & _). injection Eq as ->. exact Hp0.
        -- rewrite Eb'. apply top_not_in. clear -Dis_b Hin. set_solver.
  - simpl. rewrite !(keys_frame s s') by exact V. rewrite !V.
    rewrite <- app_assoc. reflexivity.
Qed.

(** The mirror image, after a right rotation. *)
Lemma rot_right_region s x y s' ta tb tc :
  rot_right_post s x y s' ->
  tree_at s (Inner x) (parent (node s x)) (Br (Br tc y tb) x ta) ->
  NoDup (addrs (Br (Br tc y tb) x ta)) ->
  (forall p, parent (node s x) = Some p -> p ∉ addrs (Br (Br tc y tb) x ta)) ->
  tree_at s' (Inner y) (parent (node s x)) (Br tc y (Br tb x ta)) /\
  keys s' (Br tc y (Br tb x ta)) = keys s (Br (Br tc y tb) x ta).
Proof.
  intros Hpost Ht Hnd Hout.
  assert (V : forall k, _value (node s' k) = _value (node s k))
    by (intros k; apply (rot_right_post_value s x y s' k Hpost)).
  destruct Hpost as (HL & Nx & Ny & _ & _ & Hb & _ & Ho).
  simpl in Ht. destruct Ht as (_ & Hx & _ & (_ & Hy & _ & Htc & Htb) & Hta).
  pose proof (tree_top _ _ _ _ Htb) as Eb'.
  change (right s (Inner y) = top tb) in Eb'.
  simpl in Hnd. apply NoDup_cons in Hnd as [Mx Hnd]. apply NoDup_cons in Hnd as [My Hnd].
  apply NoDup_app in Hnd as (Hnd & Dis_a & Nda).
  apply NoDup_app in Hnd as (Ndc & Dis_c & Ndb).
  assert (Mp : forall k, k ∈ addrs tc ++ addrs tb ++ addrs ta ->
               parent (node s x) <> Some k).
  { intros k Hk E. specialize (Hout k E). simpl in Hout. clear -Hout Hk. set_solver. }
  assert (Same : forall k, k ∈ addrs tc ++ addrs tb ++ addrs ta ->
                 right s (Inner y) <> Inner k -> node s' k = node s k).
  { intros k Hk Hbk. apply Ho; [| | exact Hbk | apply Mp, Hk].
    - clear -Mx Hk. set_solver.
    - clear -My Hk. set_solver. }
  split.
  - simpl. rewrite Ny, Nx. cbn [_left _right parent].
    split; [reflexivity|]. split; [lia|]. split; [reflexivity|].
    split; [| split; [reflexivity|]; split; [lia|]; split; [reflexivity|]; split].
    + (* the left subtree of y *)
      apply (tree_at_frame s s' tc _ (Some y) (Some y) HL Ndc); [| | | exact Htc].
      * intros k Hk. rewrite Same; [tauto | set_solver |].
        rewrite Eb'. apply top_not_in. clear -Dis_c Hk. set_solver.
      * intros k Hk _. rewrite Same; [reflexivity | set_solver |].
        rewrite Eb'. apply top_not_in. clear -Dis_c Hk. set_solver.
      * intros a0 E0. fold (left s (Inner y)) in Htc. rewrite E0 in Htc.
        assert (Hin : a0 ∈ addrs tc).
        { pose proof (tree_top _ _ _ _ Htc) as Et. symmetry in Et.
          apply top_in in Et. exact Et. }
        rewrite Same; [| set_solver |].
        -- destruct tc; simpl in Htc; [discriminate|].
           destruct Htc as (Eq & _ & Hp0 & _). injection Eq as ->. exact Hp0.
        -- rewrite Eb'. apply top_not_in. clear -Dis_c Hin. set_solver.
    + (* the subtree that moved from y to x *)
      apply (tree_at_frame s s' tb _ (Some y) (Some x) HL Ndb); [| | | exact Htb].
      * intros k Hk. destruct (decide (right s (Inner y) = Inner k)) as [E|E].
        -- rewrite (Hb k E). split; reflexivity.
        -- rewrite Same; [tauto | set_solver | exact E].
      * intros k Hk Hne. rewrite Same; [reflexivity | set_solver |].
        intros E. apply Hne. symmetry. exact E.
      * intros a0 E0. rewrite (Hb a0 E0). reflexivity.
    + (* the right subtree of x *)
      apply (tree_at_frame s s' ta _ (Some x) (Some x) HL Nda); [| | | exact Hta].
      * intros k Hk. rewrite Same; [tauto | set_solver |].
        rewrite Eb'. apply top_not_in. clear -Dis_a Hk. set_solver.
      * intros k Hk _. rewrite Same; [reflexivity | set_solver |].
        rewrite Eb'. apply top_not_in. clear -Dis_a Hk. set_solver.
      * intros a0 E0. fold (right s (Inner x)) in Hta. rewrite E0 in Hta.
        assert (Hin : a0 ∈ addrs ta).
        { pose proof (tree_top _ _ _ _ Hta) as Et. symmetry in Et.
          apply top_in in Et. exact Et. }
        rewrite Same; [| set_solver |].
        -- destruct ta; simpl in Hta; [discriminate|].
           destruct Hta as (Eq & _ & Hp0 & _). injection Eq as ->. exact Hp0.
        -- rewrite Eb'. apply top_not_in. clear -Dis_a Hin. set_solver.
  - simpl. rewrite !(keys_frame s s') by exact V. rewrite !V.
    rewrite <- app_assoc. reflexivity.
Qed.

(** After a rotation at [x] the returned [y] holds the parent link and the
    place [x] had: the slot of that parent, or the root of the tree. *)
Lemma rot_left_place s x y s' :
  rot_left_post s x y s' ->
  parent (node s' y) = parent (node s x) /\
  match parent (node s x) with
  | None => root s' = Inner y
  | Some p => replaced_in s s' p (Inner x) (Inner y)
  end.
Proof.
  intros (_ & _ & Ny & HR & _ & _ & Hp & _).
  split; [rewrite Ny; reflexivity|].
  destruct (parent (node s x)) as [p|] eqn:Ep; [|exact HR].
  specialize (Hp p eq_refl). unfold replaced_in, left, right. rewrite Hp.
  split; intros Hl.
  - rewrite decide_True by exact Hl. split; reflexivity.
  - rewrite decide_False by exact Hl. split; reflexivity.
Qed.

Lemma rot_right_place s x y s' :
  rot_right_post s x y s' ->
  parent (node s' y) = parent (node s x) /\
  match parent (node s x) with
  | None => root s' = Inner y
  | Some p => replaced_in s s' p (Inner x) (Inner y)
  end.
Proof.
  intros (_ & _ & Ny & HR & _ & _ & Hp & _).
  split; [rewrite Ny; reflexivity|].
  destruct (parent (node s x)) as [p|] eqn:Ep; [|exact HR].
  specialize (Hp p eq_refl). unfold replaced_in, left, right. rewrite Hp.
  split; intros Hl.
  - rewrite decide_True by exact Hl. split; reflexivity.
  - rewrite decide_False by exact Hl. split; reflexivity.
Qed.

(** A region is search-ordered exactly when its keys, read in order, are
    strictly increasing. *)
Lemma sorted_middle (l r : list Z) (v : Z) :
  StronglySorted Z.lt (l ++ v :: r) <->
  StronglySorted Z.lt l /\ StronglySorted Z.lt r /\
  Forall (fun k => k < v) l /\ Forall (fun k => v < k) r.
Proof.
  induction l as [|a l IH]; simpl.
  - split.
    + intros H. apply StronglySorted_inv in H as [Hr Hv].
      split; [constructor|]. split; [exact Hr|]. split; [constructor | exact Hv].
    + intros (_ & Hr & _ & Hv). constructor; assumption.
  - split.
    + intros H. apply StronglySorted_inv in H as [Hs Ha].
      apply IH in Hs as (Hl & Hr & Fl & Fr).
      apply Forall_app in Ha as [Hal Har]. apply Forall_cons in Har as [Hav Har].
      split; [constructor; assumption|]. split; [exact Hr|].
      split; [constructor; assumption | exact Fr].
    + intros (Hl & Hr & Fl & Fr).
      apply StronglySorted_inv in Hl as [Hl Ha].
      apply Forall_cons in Fl as [Hav Fl].
      constructor; [apply IH; tauto|].
      apply Forall_app. split; [exact Ha|]. apply Forall_cons. split; [exact Hav|].
      eapply Forall_impl; [exact Fr|]. cbv beta. intros; lia.
Qed.

Lemma bst_sorted s t : bst s t <-> StronglySorted Z.lt (keys s t).
Proof.
  induction t as [|l IHl a r IHr]; simpl.
  - split; [constructor | tauto].
  - rewrite sorted_middle, IHl, IHr. tauto.
Qed.

(** The objects of a region after the first of two rotations. *)
Lemma NoDup_double_left (n z w : nat) (l a b c : list nat) :
  NoDup (n :: l ++ z :: (w :: a ++ b) ++ c) ->
  NoDup (n :: l ++ w :: a ++ z :: b ++ c).
Proof.
  intros H.
  assert (P : n :: l ++ z :: (w :: a ++ b) ++ c ≡ₚ n :: l ++ w :: a ++ z :: b ++ c).
  { apply Permutation_cons; [reflexivity|]. apply Permutation_app_head.
    simpl. rewrite perm_swap. apply Permutation_cons; [reflexivity|].
    rewrite <- app_assoc. apply Permutation_middle. }
  rewrite <- P. exact H.
Qed.

Lemma NoDup_double_right (n z w : nat) (l a b c : list nat) :
  NoDup (n :: (z :: c ++ w :: a ++ b) ++ l) ->
  NoDup (n :: (w :: (z :: c ++ a) ++ b) ++ l).
Proof.
  intros H.
  assert (P : n :: (z :: c ++ w :: a ++ b) ++ l ≡ₚ n :: (w :: (z :: c ++ a) ++ b) ++ l).
  { apply Permutation_cons; [reflexivity|]. apply Permutation_app_tail.
    simpl. rewrite perm_swap. apply Permutation_cons; [reflexivity|].
    rewrite <- app_assoc. symmetry. apply Permutation_middle. }
  rewrite <- P. exact H.
Qed.

Lemma attached_outside s n t p :
  attached s n t -> parent (node s n) = Some p -> p ∉ addrs t.
Proof. unfold attached. intros H E. rewrite E in H. tauto. Qed.

Lemma takes_place_rot_left s x y s' :
  rot_left_post s x y s' -> takes_place s x s' y.
Proof.
  intros Hpost. destruct (rot_left_place s x y s' Hpost) as [Hp Hs].
  split; [exact Hp|]. destruct (parent (node s x)); [exact Hs | intros _; exact Hs].
Qed.

Lemma takes_place_rot_right s x y s' :
  rot_right_post s x y s' -> takes_place s x s' y.
Proof.
  intros Hpost. destruct (rot_right_place s x y s' Hpost) as [Hp Hs].
  split; [exact Hp|]. destruct (parent (node s x)); [exact Hs | intros _; exact Hs].
Qed.

(** A node that stays takes its own place. *)
Lemma takes_place_refl s n t : attached s n t -> takes_place s n s n.
Proof.
  unfold attached, takes_place. intros Hat. split; [reflexivity|].
  destruct (parent (node s n)) as [p|]; [|tauto].
  destruct Hat as (_ & _ & Hslot). unfold replaced_in.
  split; intros Hl; [tauto|]. destruct Hslot as [Hl'|[Hr _]]; [congruence | tauto].
Qed.

(** The place taken after two rotations, the first of which left the
    parent of [n] as it was. *)
Lemma takes_place_after s s1 s2 n m :
  parent (node s1 n) = parent (node s n) ->
  (forall p, parent (node s n) = Some p -> node s1 p = node s p) ->
  (parent (node s n) = None -> root s2 = Inner m) ->
  takes_place s1 n s2 m -> takes_place s n s2 m.
Proof.
  unfold takes_place. intros Hp Hsame Hroot [Hm Hs]. rewrite Hp in Hm, Hs.
  split; [exact Hm|].
  destruct (parent (node s n)) as [p|] eqn:Ep.
  - specialize (Hsame p eq_refl). unfold replaced_in, left, right in *.
    rewrite Hsame in Hs. exact Hs.
  - intros _. apply Hroot. reflexivity.
Qed.

(** ** Twins *)

Lemma node_eq_Empty fuel s : node_eq fuel s Empty Empty = Some true.
Proof. destruct fuel; reflexivity. Qed.

(** Twins: two distinct objects with equal keys, no left child, and right
    children that are leaves with equal keys and equal cached heights.  The
    comparison of the twins compares the leaves, the comparison of the
    leaves compares their parents, the twins again: it never ends. *)
Lemma node_eq_twins s a b c d va ha hb pa pb vc hc :
  a <> b -> c <> d ->
  node s a = mkInner va Empty (Inner c) ha pa ->
  node s b = mkInner va Empty (Inner d) hb pb ->
  node s c = mkInner vc Empty Empty hc (Some a) ->
  node s d = mkInner vc Empty Empty hc (Some b) ->
  forall fuel,
    node_eq fuel s (Inner a) (Inner b) = None /\
    node_eq fuel s (Inner c) (Inner d) = None.
Proof.
  intros Hab Hcd Na Nb Nc Nd.
  assert (Eab : Nat.eqb a b = false) by (apply Nat.eqb_neq; exact Hab).
  assert (Ecd : Nat.eqb c d = false) by (apply Nat.eqb_neq; exact Hcd).
  induction fuel as [|fuel [IHa IHc]].
  - simpl. rewrite Eab, Ecd. split; reflexivity.
  - split.
    + cbn [node_eq]. rewrite Eab, Na, Nb. cbn [_value _left _right].
      rewrite Z.eqb_refl. cbn [negb]. rewrite node_eq_Empty, IHc. reflexivity.
    + cbn [node_eq]. rewrite Ecd, Nc, Nd. cbn [_value _left _right _height parent].
      rewrite !Z.eqb_refl. cbn [negb]. rewrite !node_eq_Empty. exact IHa.
Qed.

(** In [twin_store], once the node at address 5 has got the parent link of
    the node at address 4, the test [is_left] of the node at address 4
    compares it with its twin at address 1 and never ends. *)
Lemma twin_is_left_diverges fuel :
  is_left fuel (assign_parent (Inner 5) (Some 0%nat) twin_store) (Inner 4) = None.
Proof.
  set (s0 := assign_parent (Inner 5) (Some 0%nat) twin_store).
  assert (E25 : forall f, node_eq f s0 (Inner 2) (Inner 5) = None).
  { intros f.
    apply (node_eq_twins s0 2 5 3 6 8 2 2 (Some 1%nat) (Some 0%nat) 9 1);
      first [lia | reflexivity]. }
  unfold is_left.
  change (get_parent s0 (Inner 4)) with (Some 0%nat). cbv beta iota.
  change (left s0 (Inner 0)) with (Inner 1).
  destruct fuel as [|fuel]; [reflexivity|].
  cbn [node_eq]. change (1 =? 4)%nat with false. cbv beta iota.
  change (node s0 1) with (mkInner 7 Empty (Inner 2) 3 (Some 0%nat)).
  change (node s0 4) with (mkInner 7 Empty (Inner 5) 3 (Some 0%nat)).
  cbn [_value _left _right]. rewrite Z.eqb_refl. cbn [negb].
  rewrite node_eq_Empty, E25. reflexivity.
Qed.

Lemma twin_rot_left_raises fuel :
  _rot_left fuel 4 twin_store =
  Raise RecursionError (assign_parent (Inner 5) (Some 0%nat) twin_store).
Proof.
  unfold _rot_left, bind, get, put.
  change (right twin_store (Inner 4)) with (Inner 5). cbv beta iota.
  unfold _set_parent, bind, get, put.
  change (get_parent twin_store (Inner 4)) with (Some 0%nat). cbv beta iota.
  rewrite twin_is_left_diverges. reflexivity.
Qed.

Lemma twin_balance_node_raises fuel :
  _balance_node fuel 4 twin_store =
  Raise RecursionError (assign_parent (Inner 5) (Some 0%nat) twin_store).
Proof.
  unfold _balance_node.
  change (bf twin_store (Inner 4)) with 2.
  change (bf twin_store (right twin_store (Inner 4))) with 1.
  cbn [Z.eqb Z.geb Z.compare Pos.eqb Pos.compare Pos.compare_cont andb].
  unfold bind. rewrite twin_rot_left_raises. reflexivity.
Qed.

(** ** [_rot_left] (C7) *)

(** C7, as worded, fails.  In [twin_store] the node at address 4 is on top
    of a tree-shaped region of distinct objects and has an Inner right
    child, but [_rot_left] raises [RecursionError], whatever the depth
    allowed to the comparison: the test [is_left] compares the node with
    its twin.  And where the call returns, the former parent of [x] is left
    out of the heights: in the store built by inserting 1, 2, 4, 5, 6 all
    cached heights are consistent; a left rotation at the node with key 5
    returns the node with key 6 and leaves the node with key 2, whose right
    slot now holds it, with cached height 2 above a child of cached
    height 3. *)
Lemma rot_left_as_worded_fails :
  (tree_at twin_store (Inner 4) (parent (node twin_store 4)) twin_region /\
   NoDup (addrs twin_region) /\
   right twin_store (Inner 4) = Inner 5 /\
   forall fuel,
     _rot_left fuel 4 twin_store =
     Raise RecursionError (assign_parent (Inner 5) (Some 0%nat) twin_store) /\
     ~ rot_left_returns_as_claimed fuel twin_store 4) /\
  (Forall (height_ok store_12456) [0; 1; 2; 3; 4]%nat /\
   ~ rot_left_heights_as_claimed 1 store_12456 3).
Proof.
  split; [split; [| split; [| split]] | split].
  - vm_compute. repeat split; lia.
  - apply (bool_decide_unpack _). vm_compute. exact I.
  - reflexivity.
  - intros fuel. split; [apply twin_rot_left_raises|].
    intros (y & s' & _ & Hrun). rewrite twin_rot_left_raises in Hrun. discriminate.
  - repeat first [apply List.Forall_nil
                 | apply List.Forall_cons; [vm_compute; reflexivity|]].
  - intros H.
    assert (E : _rot_left 1 3 store_12456 = Ret 4%nat store_12456_rotated)
      by (vm_compute; reflexivity).
    assert (Ep : parent (node store_12456 3) = Some 1%nat)
      by (vm_compute; reflexivity).
    destruct (H 4%nat _ E) as (_ & _ & Hp).
    specialize (Hp 1%nat Ep). vm_compute in Hp. discriminate.
Qed.

(** C7, amended.  Let [x] be on top of a tree-shaped region of distinct
    objects with an Inner right child [y]; let the parent of [x], if it has
    one, be an object outside the region that holds [x] in its left slot,
    or in its right slot with a left slot that is Empty or holds another
    key.  [_rot_left x] returns [y]; [y] takes the parent link of [x] and
    its place (the slot of that parent, or the root of the tree); the right
    slot of [x] holds the former left child of [y], whose parent link
    points to [x]; the left slot of [y] holds [x], whose parent link points
    to [y]; the cached heights of [x] and then of [y] agree with those of
    their children. *)
Theorem rot_left_relinks (fuel : nat) (s : State) (x y : nat) (ta tb tc : shape) :
  fuel <> O ->
  tree_at s (Inner x) (parent (node s x)) (Br ta x (Br tb y tc)) ->
  NoDup (addrs (Br ta x (Br tb y tc))) ->
  attached s x (Br ta x (Br tb y tc)) ->
  exists s',
    _rot_left fuel x s = Ret y s' /\
    parent (node s' y) = parent (node s x) /\
    match parent (node s x) with
    | None => root s' = Inner y
    | Some p => replaced_in s s' p (Inner x) (Inner y)
    end /\
    left s' (Inner x) = left s (Inner x) /\
    right s' (Inner x) = left s (Inner y) /\
    get_parent s' (left s (Inner y)) = Some x /\
    left s' (Inner y) = Inner x /\
    right s' (Inner y) = right s (Inner y) /\
    parent (node s' x) = Some y /\
    height_ok s' x /\ height_ok s' y.
Proof.
  intros Hf Ht Hnd Hat.
  destruct (rot_ready_left fuel s x y ta tb tc Hf Ht Hnd Hat)
    as (Hxy & Ea & Eb & Ec & Hready).
  rewrite <- Ea, <- Eb, <- Ec in Hready.
  destruct (rot_left_spec fuel s x y Hxy Hready) as (s' & Hrun & Hpost).
  exists s'. split; [exact Hrun|].
  pose proof Hpost as (HL & Nx & Ny & HR & HE & Hb & Hp & Ho).
  destruct Hready as (Hx & Hy & Hne & Hvb & Hbx & Hby & Hcx & _ & Hpar).
  assert (Hha : height s' (left s (Inner x)) = height s (left s (Inner x))).
  { apply (rot_left_post_height s x y s' _ Hpost).
    - rewrite Ea. simpl in Hnd. apply NoDup_cons in Hnd as [Nx' _].
      apply top_not_in. set_solver.
    - rewrite Ea. simpl in Hnd. apply NoDup_cons in Hnd as [_ Hnd].
      apply NoDup_app in Hnd as (_ & Nay & _). apply top_not_in. set_solver.
    - intros p Ep. rewrite Ep in Hpar. tauto. }
  assert (Hhb : height s' (left s (Inner y)) = height s (left s (Inner y))).
  { apply (rot_left_post_height s x y s' _ Hpost); [exact Hbx | exact Hby |].
    intros p Ep. rewrite Ep in Hpar. tauto. }
  assert (Hhc : height s' (right s (Inner y)) = height s (right s (Inner y))).
  { apply (rot_left_post_height s x y s' _ Hpost); [exact Hcx | |].
    - rewrite Ec. simpl in Hnd. apply NoDup_cons in Hnd as [_ Hnd].
      apply NoDup_app in Hnd as (_ & _ & Hnd). apply NoDup_cons in Hnd as [Ny' _].
      apply top_not_in. set_solver.
    - intros p Ep. rewrite Ep in Hpar. tauto. }
  destruct (rot_left_place s x y s' Hpost) as [Hpy Hslot].
  split; [exact Hpy|]. split; [exact Hslot|].
  split; [unfold left at 1; rewrite Nx; reflexivity|].
  split; [unfold right; rewrite Nx; reflexivity|].
  split.
  { destruct (left s (Inner y)) as [|k] eqn:El.
    - simpl. exact HE.
    - simpl. rewrite (Hb k eq_refl). reflexivity. }
  split; [unfold left; rewrite Ny; reflexivity|].
  split; [unfold right at 1; rewrite Ny; reflexivity|].
  split; [rewrite Nx; reflexivity|].
  split.
  - unfold height_ok. unfold left at 1, right at 1. rewrite Nx. cbn [_left _right].
    rewrite Hha, Hhb. unfold height at 1. rewrite Nx. reflexivity.
  - unfold height_ok. unfold left at 1, right at 1. rewrite Ny. cbn [_left _right].
    rewrite Hhc. unfold height at 1 2. rewrite Ny, Nx. reflexivity.
Qed.

Lemma rot_left_relinks_witness :
  (1 <> 0)%nat /\
  tree_at store_12456 (Inner 3) (parent (node store_12456 3))
          (Br (Br Leaf 2 Leaf) 3 (Br Leaf 4 Leaf)) /\
  NoDup (addrs (Br (Br Leaf 2 Leaf) 3 (Br Leaf 4 Leaf))) /\
  attached store_12456 3 (Br (Br Leaf 2 Leaf) 3 (Br Leaf 4 Leaf)) /\
  exists s', _rot_left 1 3 store_12456 = Ret 4%nat s' /\
             height_ok s' 3 /\ height_ok s' 4.
Proof.
  assert (Hf : (1 <> 0)%nat) by lia.
  assert (Ht : tree_at store_12456 (Inner 3) (parent (node store_12456 3))
                       (Br (Br Leaf 2 Leaf) 3 (Br Leaf 4 Leaf))).
  { vm_compute. repeat split; lia. }
  assert (Hnd : NoDup (addrs (Br (Br Leaf 2 Leaf) 3 (Br Leaf 4 Leaf)))).
  { simpl. apply (bool_decide_unpack _). vm_compute. exact I. }
  assert (Hat : attached store_12456 3 (Br (Br Leaf 2 Leaf) 3 (Br Leaf 4 Leaf))).
  { assert (E : parent (node store_12456 3) = Some 1%nat) by (vm_compute; reflexivity).
    unfold attached. rewrite E. clear E. split; [vm_compute; lia|].
    split; [apply (bool_decide_unpack _); vm_compute; exact I|].
    right. split; [vm_compute; reflexivity|].
    vm_compute. discriminate. }
  split; [exact Hf|]. split; [exact Ht|]. split; [exact Hnd|]. split; [exact Hat|].
  destruct (rot_left_relinks 1 store_12456 3 4 _ _ _ Hf Ht Hnd Hat)
    as (s' & Hrun & _ & _ & _ & _ & _ & _ & _ & _ & Hx & Hy).
  exists s'. split; [exact Hrun|]. split; [exact Hx | exact Hy].
Defined.

(** ** [_balance_node] (C6) *)

(** The balance factor of the node a left rotation returns. *)
Lemma bf_after_left s x y s' :
  rot_left_post s x y s' ->
  right s (Inner y) <> Inner x -> right s (Inner y) <> Inner y ->
  (forall p, parent (node s x) = Some p -> right s (Inner y) <> Inner p) ->
  bf s' (Inner y) =
  height s (right s (Inner y)) -
  (Z.max (height s (left s (Inner x))) (height s (left s (Inner y))) + 1).
Proof.
  intros Hpost Hcx Hcy Hcp.
  pose proof (rot_left_post_height s x y s' _ Hpost Hcx Hcy Hcp) as Hc.
  destruct Hpost as (_ & Nx & Ny & _).
  unfold bf, left at 1, right at 1. rewrite Ny. cbn [_left _right].
  rewrite Hc. unfold height at 2. rewrite Nx. reflexivity.
Qed.

(** The balance factor of the node a right rotation returns. *)
Lemma bf_after_right s x y s' :
  rot_right_post s x y s' ->
  left s (Inner y) <> Inner x -> left s (Inner y) <> Inner y ->
  (forall p, parent (node s x) = Some p -> left s (Inner y) <> Inner p) ->
  bf s' (Inner y) =
  (Z.max (height s (right s (Inner y))) (height s (right s (Inner x))) + 1) -
  height s (left s (Inner y)).
Proof.
  intros Hpost Hcx Hcy Hcp.
  pose proof (rot_right_post_height s x y s' _ Hpost Hcx Hcy Hcp) as Hc.
  destruct Hpost as (_ & Nx & Ny & _).
  unfold bf, left at 1, right at 1. rewrite Ny. cbn [_left _right].
  rewrite Hc. unfold height at 1. rewrite Nx. reflexivity.
Qed.

(** In a search tree the two children of a node hold different keys. *)
Lemma bst_sibling_keys s tl n tr :
  bst s (Br tl n tr) -> tr <> Leaf -> value s (top tl) <> value s (top tr).
Proof.
  intros (_ & _ & Hl & Hr) Htr.
  destruct tr as [|rl z rr]; [congruence|]. destruct tl as [|ll k lr]; [discriminate|].
  simpl in *. intros [= E].
  rewrite Forall_forall in Hl, Hr.
  assert (Hk : _value (node s k) < _value (node s n)) by (apply Hl; set_solver).
  assert (Hz : _value (node s n) < _value (node s z)) by (apply Hr; set_solver).
  lia.
Qed.

Lemma bst_sibling_keys' s tl n tr :
  bst s (Br tl n tr) -> tl <> Leaf -> value s (top tr) <> value s (top tl).
Proof.
  intros (_ & _ & Hl & Hr) Htl.
  destruct tl as [|ll k lr]; [congruence|]. destruct tr as [|rl z rr]; [discriminate|].
  simpl in *. intros [= E].
  rewrite Forall_forall in Hl, Hr.
  assert (Hk : _value (node s k) < _value (node s n)) by (apply Hl; set_solver).
  assert (Hz : _value (node s n) < _value (node s z)) by (apply Hr; set_solver).
  lia.
Qed.

(** The double rotation for a node leaning right over a child leaning left:
    both rotations return, the returned node takes the place of [n] on top
    of the rotated region, and its balance factor is given by the heights
    cached before. *)
Lemma double_left fuel s n z w tl tw1 tw2 tc :
  fuel <> O ->
  tree_at s (Inner n) (parent (node s n)) (Br tl n (Br (Br tw1 w tw2) z tc)) ->
  NoDup (addrs (Br tl n (Br (Br tw1 w tw2) z tc))) ->
  attached s n (Br tl n (Br (Br tw1 w tw2) z tc)) ->
  bst s (Br tl n (Br (Br tw1 w tw2) z tc)) ->
  exists s1 s2,
    _rot_right fuel z s = Ret w s1 /\ _rot_left fuel n s1 = Ret w s2 /\
    bf s2 (Inner w) =
    (Z.max (height s (right s (Inner w))) (height s (right s (Inner z))) + 1) -
    (Z.max (height s (left s (Inner n))) (height s (left s (Inner w))) + 1) /\
    tree_at s2 (Inner w) (parent (node s n)) (Br (Br tl n tw1) w (Br tw2 z tc)) /\
    keys s2 (Br (Br tl n tw1) w (Br tw2 z tc)) =
    keys s (Br tl n (Br (Br tw1 w tw2) z tc)) /\
    takes_place s n s2 w.
Proof.
  intros Hf Ht Hnd Hat Hbst.
  pose proof Ht as Ht0. pose proof Hnd as Hnd0. pose proof Hat as Hat0.
  simpl in Ht, Hnd.
  destruct Ht as (_ & Hn & _ & Htl & Hnz & Hz & Hpz & (Hzw & Hw & Hpw & Htw1 & Htw2) & Htc).
  pose proof (tree_top _ _ _ _ Htl) as El. pose proof (tree_top _ _ _ _ Htw1) as E1.
  pose proof (tree_top _ _ _ _ Htw2) as E2. pose proof (tree_top _ _ _ _ Htc) as Ec.
  apply NoDup_cons in Hnd as [Nn Hnd]. apply NoDup_app in Hnd as (Ndl & Nl & Hnd).
  pose proof Hnd as Hndz.
  apply NoDup_cons in Hnd as [Nz Hnd]. apply NoDup_cons in Hnd as [Nw Hnd].
  assert (Dn : n <> z /\ n <> w /\ z <> w) by (repeat split; set_solver).
  destruct Dn as (Dnz & Dnw & Dzw).
  assert (Tl : top tl <> Inner n /\ top tl <> Inner z /\ top tl <> Inner w)
    by (repeat split; distinct).
  assert (T1 : top tw1 <> Inner n /\ top tw1 <> Inner z /\ top tw1 <> Inner w)
    by (repeat split; distinct).
  assert (T2 : top tw2 <> Inner n /\ top tw2 <> Inner z /\ top tw2 <> Inner w)
    by (repeat split; distinct).
  assert (Tc : top tc <> Inner n /\ top tc <> Inner z /\ top tc <> Inner w)
    by (repeat split; distinct).
  assert (Hp : match parent (node s n) with
               | None => True
               | Some p => (p < length (heap s))%nat /\ p <> n /\ p <> z /\ p <> w /\
                   top tl <> Inner p /\ top tw1 <> Inner p /\
                   top tw2 <> Inner p /\ top tc <> Inner p /\
                   (left s (Inner p) = Inner n \/
                    value s (left s (Inner p)) <> value s (Inner n))
               end).
  { unfold attached in Hat. destruct (parent (node s n)) as [p|]; [|exact I].
    destruct Hat as (Hpl & Np & Hslot). simpl in Np. revert Hslot.
    split; [exact Hpl|]. repeat (split; [distinct|]).
    destruct Hslot as [Hl|[_ Hv]]; [left; exact Hl | right; exact Hv]. }
  assert (Ntl : forall k, k ∈ addrs tl ->
                k <> n /\ k <> z /\ k <> w /\ top tw2 <> Inner k).
  { intros k Hk. repeat split; distinct. }
  assert (Nzn : n ∉ addrs (Br (Br tw1 w tw2) z tc)).
  { simpl. clear -Nn. set_solver. }
  clear Nn Nl Nz Nw Hnd Hat.
  assert (Hkeys : value s (top tl) <> value s (Inner z)).
  { apply (bst_sibling_keys s tl n (Br (Br tw1 w tw2) z tc) Hbst). discriminate. }
  (* the rotation at z *)
  assert (R1 : rot_ready fuel s z w (right s (Inner z)) (right s (Inner w))
                         (left s (Inner w))).
  { unfold left, right. rewrite <- Ec, <- E2, <- E1 in *.
    split; [exact Hz|]. split; [exact Hw|]. split; [exact Dzw|].
    split; [apply (valid_of_tree _ _ _ _ Htw2)|].
    split; [tauto|]. split; [tauto|]. split; [tauto|]. split; [exact Hf|].
    rewrite Hpz.
    split; [exact Hn|]. split; [exact Dnz|]. split; [exact Dnw|].
    split; [tauto|]. split; [tauto|]. split; [tauto|].
    right. unfold left. rewrite El. exact Hkeys. }
  destruct (rot_right_spec fuel s z w Hzw R1) as (s1 & Hrun1 & Post1).
  pose proof Post1 as (L1 & N1z & N1w & _ & _ & _ & P1 & O1).
  assert (N1n : node s1 n =
     with_height (Z.max (height s (left s (Inner n))) (height s (Inner w)) + 1)
                 (with_right (Inner w) (node s n))).
  { rewrite (P1 n Hpz). rewrite decide_False; [reflexivity|].
    unfold left. rewrite El. tauto. }
  assert (V1 : forall k, _value (node s1 k) = _value (node s k))
    by (intros k; apply (rot_right_post_value s z w s1 k Post1)).
  assert (H1 : forall q, q <> Inner z -> q <> Inner w -> q <> Inner n ->
               height s1 q = height s q).
  { intros q Qz Qw Qn. apply (rot_right_post_height s z w s1 q Post1 Qz Qw).
    intros p Ep. rewrite Hpz in Ep. injection Ep as <-. exact Qn. }
  assert (Np1 : forall p, parent (node s n) = Some p -> node s1 p = node s p).
  { intros p Ep. rewrite Ep in Hp.
    destruct Hp as (Hpl & Dpn & Dpz & Dpw & Pl & P1' & P2' & Pc & Hslot).
    apply O1; [exact Dpz | exact Dpw | |].
    - unfold right. rewrite E2. exact P2'.
    - rewrite Hpz. congruence. }
  (* the region after the rotation at z *)
  assert (Htz : tree_at s (Inner z) (parent (node s z)) (Br (Br tw1 w tw2) z tc)).
  { rewrite Hpz. simpl. tauto. }
  destruct (rot_right_region s z w s1 tc tw2 tw1 Post1 Htz Hndz) as [Htree1 Hkeys1].
  { intros p Ep. rewrite Hpz in Ep. injection Ep as <-. exact Nzn. }
  rewrite Hpz in Htree1.
  assert (Hpn1 : parent (node s1 n) = parent (node s n)) by (rewrite N1n; reflexivity).
  assert (Ht1 : tree_at s1 (Inner n) (parent (node s1 n))
                        (Br tl n (Br tw1 w (Br tw2 z tc)))).
  { cbn [tree_at]. split; [reflexivity|]. split; [lia|]. split; [reflexivity|].
    rewrite N1n. cbn [with_height with_right _left _right]. split; [| exact Htree1].
    apply (tree_at_frame s s1 tl _ (Some n) (Some n) L1 Ndl); [| | | exact Htl].
    - intros k Hk. destruct (Ntl k Hk) as (Kn & Kz & Kw & K2).
      rewrite O1; [tauto | exact Kz | exact Kw | |].
      + unfold right. rewrite E2. exact K2.
      + rewrite Hpz. congruence.
    - intros k Hk _. destruct (Ntl k Hk) as (Kn & Kz & Kw & K2).
      rewrite O1; [reflexivity | exact Kz | exact Kw | |].
      + unfold right. rewrite E2. exact K2.
      + rewrite Hpz. congruence.
    - intros a0 E0. rewrite E0 in Htl.
      assert (Hin : a0 ∈ addrs tl).
      { pose proof (tree_top _ _ _ _ Htl) as Et. symmetry in Et.
        apply top_in in Et. exact Et. }
      destruct (Ntl a0 Hin) as (Kn & Kz & Kw & K2).
      rewrite O1; [| exact Kz | exact Kw | |].
      + destruct tl; simpl in Htl; [discriminate|].
        destruct Htl as (Eq & _ & Hp0 & _). injection Eq as ->. exact Hp0.
      + unfold right. rewrite E2. exact K2.
      + rewrite Hpz. congruence. }
  assert (Hnd1 : NoDup (addrs (Br tl n (Br tw1 w (Br tw2 z tc))))).
  { simpl. apply NoDup_double_left. exact Hnd0. }
  (* the rotation at n *)
  assert (Hnw1 : right s1 (Inner n) = Inner w) by (unfold right; rewrite N1n; reflexivity).
  assert (Eln : left s1 (Inner n) = top tl).
  { unfold left. rewrite N1n. cbn [with_height with_right _left]. exact El. }
  assert (Elw : left s1 (Inner w) = top tw1).
  { unfold left at 1. rewrite N1w. cbn [_left]. unfold left. exact E1. }
  assert (Erw : right s1 (Inner w) = Inner z) by (unfold right; rewrite N1w; reflexivity).
  assert (R2 : rot_ready fuel s1 n w (left s1 (Inner n)) (left s1 (Inner w))
                         (right s1 (Inner w))).
  { rewrite Eln, Elw, Erw.
    split; [lia|]. split; [lia|]. split; [exact Dnw|].
    split; [apply (valid_length s); [exact L1|]; rewrite <- E1;
            apply (valid_of_tree _ _ _ _ Htw1)|].
    split; [tauto|]. split; [tauto|]. split; [congruence|]. split; [exact Hf|].
    rewrite Hpn1. destruct (parent (node s n)) as [p|] eqn:Epn; [|exact I].
    pose proof (Np1 p eq_refl) as Np.
    destruct Hp as (Hpl & Dpn & Dpz & Dpw & Pl & P1' & P2' & Pc & Hslot).
    split; [lia|]. split; [exact Dpn|]. split; [exact Dpw|].
    split; [exact Pl|]. split; [exact P1'|]. split; [congruence|].
    unfold left at 1 2. rewrite Np. fold (left s (Inner p)).
    destruct Hslot as [Hl|Hv]; [left; exact Hl | right].
    unfold value at 2. rewrite V1.
    destruct (left s (Inner p)) as [|k]; [discriminate|].
    unfold value in Hv |- *. rewrite V1. exact Hv. }
  destruct (rot_left_spec fuel s1 n w Hnw1 R2) as (s2 & Hrun2 & Post2).
  destruct (rot_left_region s1 n w s2 tl tw1 (Br tw2 z tc) Post2 Ht1 Hnd1)
    as [Htree2 Hkeys2].
  { intros p Ep. rewrite Hpn1 in Ep.
    pose proof (attached_outside s n _ p Hat0 Ep) as Hout.
    simpl in Hout |- *. clear -Hout. set_solver. }
  exists s1, s2. split; [exact Hrun1|]. split; [exact Hrun2|].
  split; [| split; [| split]].
  - rewrite (bf_after_left s1 n w s2 Post2).
    + rewrite Erw, Eln, Elw. unfold height at 1. rewrite N1z. cbn [_height].
      rewrite (H1 (top tl)), (H1 (top tw1)) by tauto.
      unfold left. rewrite El, E1. reflexivity.
    + rewrite Erw. congruence.
    + rewrite Erw. congruence.
    + intros p Ep. rewrite Erw. rewrite Hpn1 in Ep. rewrite Ep in Hp.
      destruct Hp as (_ & _ & Dpz & _). congruence.
  - rewrite Hpn1 in Htree2. exact Htree2.
  - rewrite Hkeys2. simpl. rewrite !(keys_frame s s1) by exact V1. rewrite !V1.
    repeat (rewrite <- app_assoc; simpl). reflexivity.
  - apply (takes_place_after s s1 s2 n w Hpn1 Np1).
    + intros En. destruct (rot_left_place s1 n w s2 Post2) as [_ Hs].
      rewrite Hpn1, En in Hs. exact Hs.
    + apply (takes_place_rot_left s1 n w s2 Post2).
Qed.

(** The mirror image: a node leaning left over a child leaning right. *)
Lemma double_right fuel s n z w tl tw1 tw2 tc :
  fuel <> O ->
  tree_at s (Inner n) (parent (node s n)) (Br (Br tc z (Br tw1 w tw2)) n tl) ->
  NoDup (addrs (Br (Br tc z (Br tw1 w tw2)) n tl)) ->
  attached s n (Br (Br tc z (Br tw1 w tw2)) n tl) ->
  exists s1 s2,
    _rot_left fuel z s = Ret w s1 /\ _rot_right fuel n s1 = Ret w s2 /\
    bf s2 (Inner w) =
    (Z.max (height s (right s (Inner w))) (height s (right s (Inner n))) + 1) -
    (Z.max (height s (left s (Inner z))) (height s (left s (Inner w))) + 1) /\
    tree_at s2 (Inner w) (parent (node s n)) (Br (Br tc z tw1) w (Br tw2 n tl)) /\
    keys s2 (Br (Br tc z tw1) w (Br tw2 n tl)) =
    keys s (Br (Br tc z (Br tw1 w tw2)) n tl) /\
    takes_place s n s2 w.
Proof.
  intros Hf Ht Hnd Hat.
  pose proof Hnd as Hnd0. pose proof Hat as Hat0.
  simpl in Ht, Hnd.
  destruct Ht as (_ & Hn & _ & (Hnz & Hz & Hpz & Htc & Hzw & Hw & Hpw & Htw1 & Htw2) & Htl).
  pose proof (tree_top _ _ _ _ Htl) as El. pose proof (tree_top _ _ _ _ Htw1) as E1.
  pose proof (tree_top _ _ _ _ Htw2) as E2. pose proof (tree_top _ _ _ _ Htc) as Ec.
  apply NoDup_cons in Hnd as [Nn Hnd]. apply NoDup_cons in Hnd as [Nz Hnd].
  apply NoDup_app in Hnd as (Hnd & Nl & Ndl).
  assert (Hndz : NoDup (addrs (Br tc z (Br tw1 w tw2)))).
  { simpl. apply NoDup_cons. split; [clear -Nz; set_solver | exact Hnd]. }
  apply NoDup_app in Hnd as (_ & Nc & Hnd).
  apply NoDup_cons in Hnd as [Nw _].
  assert (Dn : n <> z /\ n <> w /\ z <> w) by (repeat split; set_solver).
  destruct Dn as (Dnz & Dnw & Dzw).
  assert (Tl : top tl <> Inner n /\ top tl <> Inner z /\ top tl <> Inner w)
    by (repeat split; distinct).
  assert (T1 : top tw1 <> Inner n /\ top tw1 <> Inner z /\ top tw1 <> Inner w)
    by (repeat split; distinct).
  assert (T2 : top tw2 <> Inner n /\ top tw2 <> Inner z /\ top tw2 <> Inner w)
    by (repeat split; distinct).
  assert (Tc : top tc <> Inner n /\ top tc <> Inner z /\ top tc <> Inner w)
    by (repeat split; distinct).
  assert (Hp : match parent (node s n) with
               | None => True
               | Some p => (p < length (heap s))%nat /\ p <> n /\ p <> z /\ p <> w /\
                   top tl <> Inner p /\ top tw1 <> Inner p /\
                   top tw2 <> Inner p /\ top tc <> Inner p /\
                   (left s (Inner p) = Inner n \/
                    value s (left s (Inner p)) <> value s (Inner n))
               end).
  { unfold attached in Hat. destruct (parent (node s n)) as [p|]; [|exact I].
    destruct Hat as (Hpl & Np & Hslot). simpl in Np. revert Hslot.
    split; [exact Hpl|]. repeat (split; [distinct|]).
    destruct Hslot as [Hl|[_ Hv]]; [left; exact Hl | right; exact Hv]. }
  assert (Ntl : forall k, k ∈ addrs tl ->
                k <> n /\ k <> z /\ k <> w /\ top tw1 <> Inner k).
  { intros k Hk. repeat split; distinct. }
  assert (Nzn : n ∉ addrs (Br tc z (Br tw1 w tw2))).
  { simpl. clear -Nn. set_solver. }
  clear Nn Nl Nz Nc Nw Hat.
  (* the rotation at z *)
  assert (R1 : rot_ready fuel s z w (left s (Inner z)) (left s (Inner w))
                         (right s (Inner w))).
  { unfold left, right. rewrite Ec, E1, E2.
    split; [exact Hz|]. split; [exact Hw|]. split; [exact Dzw|].
    split; [rewrite <- E1; apply (valid_of_tree _ _ _ _ Htw1)|].
    split; [tauto|]. split; [tauto|]. split; [tauto|]. split; [exact Hf|].
    rewrite Hpz.
    split; [exact Hn|]. split; [exact Dnz|]. split; [exact Dnw|].
    split; [tauto|]. split; [tauto|]. split; [tauto|].
    left. exact Hnz. }
  destruct (rot_left_spec fuel s z w Hzw R1) as (s1 & Hrun1 & Post1).
  pose proof Post1 as (L1 & N1z & N1w & _ & _ & _ & P1 & O1).
  assert (N1n : node s1 n =
     with_height (Z.max (height s (Inner w)) (height s (right s (Inner n))) + 1)
                 (with_left (Inner w) (node s n))).
  { rewrite (P1 n Hpz). rewrite decide_True; [reflexivity|]. exact Hnz. }
  assert (V1 : forall k, _value (node s1 k) = _value (node s k))
    by (intros k; apply (rot_left_post_value s z w s1 k Post1)).
  assert (H1 : forall q, q <> Inner z -> q <> Inner w -> q <> Inner n ->
               height s1 q = height s q).
  { intros q Qz Qw Qn. apply (rot_left_post_height s z w s1 q Post1 Qz Qw).
    intros p Ep. rewrite Hpz in Ep. injection Ep as <-. exact Qn. }
  assert (Np1 : forall p, parent (node s n) = Some p -> node s1 p = node s p).
  { intros p Ep. rewrite Ep in Hp.
    destruct Hp as (Hpl & Dpn & Dpz & Dpw & Pl & P1' & P2' & Pc & Hslot).
    apply O1; [exact Dpz | exact Dpw | |].
    - unfold left. rewrite E1. exact P1'.
    - rewrite Hpz. congruence. }
  (* the region after the rotation at z *)
  assert (Htz : tree_at s (Inner z) (parent (node s z)) (Br tc z (Br tw1 w tw2))).
  { rewrite Hpz. simpl. tauto. }
  destruct (rot_left_region s z w s1 tc tw1 tw2 Post1 Htz Hndz) as [Htree1 Hkeys1].
  { intros p Ep. rewrite Hpz in Ep. injection Ep as <-. exact Nzn. }
  rewrite Hpz in Htree1.
  assert (Hpn1 : parent (node s1 n) = parent (node s n)) by (rewrite N1n; reflexivity).
  assert (Ht1 : tree_at s1 (Inner n) (parent (node s1 n))
                        (Br (Br (Br tc z tw1) w tw2) n tl)).
  { cbn [tree_at]. split; [reflexivity|]. split; [lia|]. split; [reflexivity|].
    rewrite N1n. cbn [with_height with_left _left _right]. split; [exact Htree1|].
    apply (tree_at_frame s s1 tl _ (Some n) (Some n) L1 Ndl); [| | | exact Htl].
    - intros k Hk. destruct (Ntl k Hk) as (Kn & Kz & Kw & K2).
      rewrite O1; [tauto | exact Kz | exact Kw | |].
      + unfold left. rewrite E1. exact K2.
      + rewrite Hpz. congruence.
    - intros k Hk _. destruct (Ntl k Hk) as (Kn & Kz & Kw & K2).
      rewrite O1; [reflexivity | exact Kz | exact Kw | |].
      + unfold left. rewrite E1. exact K2.
      + rewrite Hpz. congruence.
    - intros a0 E0. rewrite E0 in Htl.
      assert (Hin : a0 ∈ addrs tl).
      { pose proof (tree_top _ _ _ _ Htl) as Et. symmetry in Et.
        apply top_in in Et. exact Et. }
      destruct (Ntl a0 Hin) as (Kn & Kz & Kw & K2).
      rewrite O1; [| exact Kz | exact Kw | |].
      + destruct tl; simpl in Htl; [discriminate|].
        destruct Htl as (Eq & _ & Hp0 & _). injection Eq as ->. exact Hp0.
      + unfold left. rewrite E1. exact K2.
      + rewrite Hpz. congruence. }
  assert (Hnd1 : NoDup (addrs (Br (Br (Br tc z tw1) w tw2) n tl))).
  { simpl. apply NoDup_double_right. exact Hnd0. }
  (* the rotation at n *)
  assert (Hnw1 : left s1 (Inner n) = Inner w) by (unfold left; rewrite N1n; reflexivity).
  assert (Ern : right s1 (Inner n) = top tl).
  { unfold right. rewrite N1n. cbn [with_height with_left _right]. exact El. }
  assert (Erw : right s1 (Inner w) = top tw2).
  { unfold right at 1. rewrite N1w. cbn [_right]. unfold right. exact E2. }
  assert (Elw : left s1 (Inner w) = Inner z) by (unfold left; rewrite N1w; reflexivity).
  assert (R2 : rot_ready fuel s1 n w (right s1 (Inner n)) (right s1 (Inner w))
                         (left s1 (Inner w))).
  { rewrite Ern, Erw, Elw.
    split; [lia|]. split; [lia|]. split; [exact Dnw|].
    split; [apply (valid_length s); [exact L1|]; rewrite <- E2;
            apply (valid_of_tree _ _ _ _ Htw2)|].
    split; [tauto|]. split; [tauto|]. split; [congruence|]. split; [exact Hf|].
    rewrite Hpn1. destruct (parent (node s n)) as [p|] eqn:Epn; [|exact I].
    pose proof (Np1 p eq_refl) as Np.
    destruct Hp as (Hpl & Dpn & Dpz & Dpw & Pl & P1' & P2' & Pc & Hslot).
    split; [lia|]. split; [exact Dpn|]. split; [exact Dpw|].
    split; [exact Pl|]. split; [exact P2'|]. split; [congruence|].
    unfold left at 1 2. rewrite Np. fold (left s (Inner p)).
    destruct Hslot as [Hl|Hv]; [left; exact Hl | right].
    unfold value at 2. rewrite V1.
    destruct (left s (Inner p)) as [|k]; [discriminate|].
    unfold value in Hv |- *. rewrite V1. exact Hv. }
  destruct (rot_right_spec fuel s1 n w Hnw1 R2) as (s2 & Hrun2 & Post2).
  destruct (rot_right_region s1 n w s2 tl tw2 (Br tc z tw1) Post2 Ht1 Hnd1)
    as [Htree2 Hkeys2].
  { intros p Ep. rewrite Hpn1 in Ep.
    pose proof (attached_outside s n _ p Hat0 Ep) as Hout.
    simpl in Hout |- *. clear -Hout. set_solver. }
  exists s1, s2. split; [exact Hrun1|]. split; [exact Hrun2|].
  split; [| split; [| split]].
  - rewrite (bf_after_right s1 n w s2 Post2).
    + rewrite Erw, Ern, Elw. unfold height at 3. rewrite N1z. cbn [_height].
      rewrite (H1 (top tl)), (H1 (top tw2)) by tauto.
      unfold right. rewrite El, E2. reflexivity.
    + rewrite Elw. congruence.
    + rewrite Elw. congruence.
    + intros p Ep. rewrite Elw. rewrite Hpn1 in Ep. rewrite Ep in Hp.
      destruct Hp as (_ & _ & Dpz & _). congruence.
  - rewrite Hpn1 in Htree2. exact Htree2.
  - rewrite Hkeys2. simpl. rewrite !(keys_frame s s1) by exact V1. rewrite !V1.
    repeat (rewrite <- app_assoc; simpl). reflexivity.
  - apply (takes_place_after s s1 s2 n w Hpn1 Np1).
    + intros En. destruct (rot_right_place s1 n w s2 Post2) as [_ Hs].
      rewrite Hpn1, En in Hs. exact Hs.
    + apply (takes_place_rot_right s1 n w s2 Post2).
Qed.

(** A single left rotation at the top of a region: it returns, the
    returned node takes the place of [n] on top of the rotated region, and
    its balance factor is given by the heights cached before. *)
Lemma single_left fuel s n y tl tb tc :
  fuel <> O ->
  tree_at s (Inner n) (parent (node s n)) (Br tl n (Br tb y tc)) ->
  NoDup (addrs (Br tl n (Br tb y tc))) ->
  attached s n (Br tl n (Br tb y tc)) ->
  exists s', _rot_left fuel n s = Ret y s' /\
    bf s' (Inner y) =
    height s (right s (Inner y)) -
    (Z.max (height s (left s (Inner n))) (height s (left s (Inner y))) + 1) /\
    tree_at s' (Inner y) (parent (node s n)) (Br (Br tl n tb) y tc) /\
    keys s' (Br (Br tl n tb) y tc) = keys s (Br tl n (Br tb y tc)) /\
    takes_place s n s' y.
Proof.
  intros Hf Ht Hnd Hat.
  destruct (rot_ready_left fuel s n y tl tb tc Hf Ht Hnd Hat)
    as (Hxy & Ea & Eb & Ec & Hready).
  rewrite <- Ea, <- Eb, <- Ec in Hready.
  destruct (rot_left_spec fuel s n y Hxy Hready) as (s' & Hrun & Hpost).
  exists s'. split; [exact Hrun|].
  destruct (rot_left_region s n y s' tl tb tc Hpost Ht Hnd) as [Htree Hkeys].
  { intros p Ep. apply (attached_outside s n _ p Hat Ep). }
  split; [| split; [exact Htree | split; [exact Hkeys|]]].
  - destruct Hready as (_ & _ & _ & _ & _ & _ & Hcx & _ & Hpar).
    apply (bf_after_left s n y s' Hpost); [exact Hcx | |].
    + rewrite Ec. simpl in Hnd. apply NoDup_cons in Hnd as [_ Hnd].
      apply NoDup_app in Hnd as (_ & _ & Hnd). apply NoDup_cons in Hnd as [Ny _].
      distinct.
    + intros p Ep. rewrite Ep in Hpar. tauto.
  - apply (takes_place_rot_left s n y s' Hpost).
Qed.

(** A single right rotation at the top of a region. *)
Lemma single_right fuel s n y tc tb tr :
  fuel <> O ->
  tree_at s (Inner n) (parent (node s n)) (Br (Br tc y tb) n tr) ->
  NoDup (addrs (Br (Br tc y tb) n tr)) ->
  attached s n (Br (Br tc y tb) n tr) ->
  exists s', _rot_right fuel n s = Ret y s' /\
    bf s' (Inner y) =
    (Z.max (height s (right s (Inner y))) (height s (right s (Inner n))) + 1) -
    height s (left s (Inner y)) /\
    tree_at s' (Inner y) (parent (node s n)) (Br tc y (Br tb n tr)) /\
    keys s' (Br tc y (Br tb n tr)) = keys s (Br (Br tc y tb) n tr) /\
    takes_place s n s' y.
Proof.
  intros Hf Ht Hnd Hat.
  destruct (rot_ready_right fuel s n y tr tb tc Hf Ht Hnd Hat)
    as (Hxy & Ea & Eb & Ec & _ & _ & Dcy & Hready).
  rewrite <- Ea, <- Eb, <- Ec in Hready. rewrite <- Ec in Dcy.
  destruct (rot_right_spec fuel s n y Hxy Hready) as (s' & Hrun & Hpost).
  exists s'. split; [exact Hrun|].
  destruct (rot_right_region s n y s' tr tb tc Hpost Ht Hnd) as [Htree Hkeys].
  { intros p Ep. apply (attached_outside s n _ p Hat Ep). }
  split; [| split; [exact Htree | split; [exact Hkeys|]]].
  - destruct Hready as (_ & _ & _ & _ & _ & _ & Hcx & _ & Hpar).
    apply (bf_after_right s n y s' Hpost); [exact Hcx | exact Dcy |].
    intros p Ep. rewrite Ep in Hpar. tauto.
  - apply (takes_place_rot_right s n y s' Hpost).
Qed.

Lemma check_bf_ok n s : -2 < bf s (Inner n) < 2 -> check_bf n s = Ret n s.
Proof.
  intros [H1 H2]. unfold check_bf.
  rewrite (proj2 (Z.ltb_lt _ _) H1), (proj2 (Z.ltb_lt _ _) H2). reflexivity.
Qed.

Lemma heights_ok_inv s l a r :
  heights_ok s (Br l a r) -> height_ok s a /\ heights_ok s l /\ heights_ok s r.
Proof.
  unfold heights_ok. simpl. intros H. apply Forall_cons in H as [Ha H].
  apply Forall_app in H as [Hl Hr]. tauto.
Qed.

Lemma avl_inv s l a r :
  avl s (Br l a r) -> -1 <= bf s (Inner a) <= 1 /\ avl s l /\ avl s r.
Proof.
  unfold avl. simpl. intros H. apply Forall_cons in H as [Ha H].
  apply Forall_app in H as [Hl Hr]. tauto.
Qed.

(** C6, as worded, fails.  [twin_store] is a tree-shaped region of distinct
    objects with consistent parent links and cached heights.  The node at
    address 4 has no left child and a right subtree that satisfies the AVL
    condition; its balance factor is 2.  [_balance_node] rotates left at
    it, and the test [is_left] compares the node with its twin, the left
    child of its parent: the call raises [RecursionError], whatever the
    depth allowed to the comparison, and returns no node. *)
Lemma balance_node_twins_raise :
  tree_at twin_store (root twin_store) None twin_shape /\
  NoDup (addrs twin_shape) /\
  heights_ok twin_store twin_shape /\
  tree_at twin_store (Inner 4) (parent (node twin_store 4)) twin_region /\
  avl twin_store Leaf /\
  avl twin_store (Br Leaf 5 (Br Leaf 6 Leaf)) /\
  bf twin_store (Inner 4) = 2 /\
  forall fuel,
    _balance_node fuel 4 twin_store =
    Raise RecursionError (assign_parent (Inner 5) (Some 0%nat) twin_store) /\
    ~ balance_node_as_claimed fuel twin_store 4.
Proof.
  split; [vm_compute; repeat split; lia|].
  split; [apply (bool_decide_unpack _); vm_compute; exact I|].
  split.
  { unfold heights_ok, twin_shape, twin_region. cbn [addrs app].
    repeat first [apply List.Forall_nil
                 | apply List.Forall_cons; [vm_compute; reflexivity|]]. }
  split; [vm_compute; repeat split; lia|].
  split; [apply List.Forall_nil|].
  split.
  { unfold avl. cbn [addrs app].
    repeat first [apply List.Forall_nil
                 | apply List.Forall_cons; [vm_compute; split; discriminate|]]. }
  split; [reflexivity|].
  intros fuel. split; [apply twin_balance_node_raises|].
  intros (m & s' & Hrun & _). rewrite twin_balance_node_raises in Hrun. discriminate.
Qed.

(** A region with the keys of a search-ordered region, in the same order,
    is search-ordered. *)
Lemma bst_of_keys s s' t t' : keys s' t' = keys s t -> bst s t -> bst s' t'.
Proof. intros E H. apply bst_sorted. rewrite E. apply bst_sorted. exact H. Qed.

(** C6, amended.  Let [n] be on top of a tree-shaped, search-ordered region
    of distinct objects; let its parent, if it has one, be an object
    outside the region that holds [n] in its left slot, or in its right
    slot with a left slot that is Empty or holds another key; let the
    cached heights of the region be consistent, the two subtrees of [n]
    satisfy the AVL condition, and the balance factor of [n] lie in
    [-2, 2].  Then [_balance_node n] returns (no assertion fails) a node
    [m] whose balance factor lies strictly between -2 and 2; [m] has the
    parent link and the place [n] had, and is on top of a tree-shaped,
    search-ordered region with the same keys in the same order. *)
Theorem balance_node_restores (fuel : nat) (s : State) (n : nat) (tl tr : shape) :
  fuel <> O ->
  tree_at s (Inner n) (parent (node s n)) (Br tl n tr) ->
  NoDup (addrs (Br tl n tr)) ->
  attached s n (Br tl n tr) ->
  bst s (Br tl n tr) ->
  heights_ok s (Br tl n tr) ->
  avl s tl -> avl s tr ->
  -2 <= bf s (Inner n) <= 2 ->
  exists m s' t',
    _balance_node fuel n s = Ret m s' /\
    -2 < bf s' (Inner m) < 2 /\
    takes_place s n s' m /\
    tree_at s' (Inner m) (parent (node s n)) t' /\
    keys s' t' = keys s (Br tl n tr) /\
    bst s' t'.
Proof.
  intros Hf Ht Hnd Hat Hbst Hh Hal Har Hbf.
  pose proof Ht as (_ & _ & _ & Htl & Htr).
  pose proof (tree_top _ _ _ _ Htl) as El. pose proof (tree_top _ _ _ _ Htr) as Er.
  apply heights_ok_inv in Hh as (Hn & Hhl & Hhr).
  pose proof (height_nonneg s tl _ _ Htl Hhl) as Hl0.
  pose proof (height_nonneg s tr _ _ Htr Hhr) as Hr0.
  fold (left s (Inner n)) in El, Hl0. fold (right s (Inner n)) in Er, Hr0.
  assert (Ebf : bf s (Inner n) =
                height s (right s (Inner n)) - height s (left s (Inner n)))
    by reflexivity.
  unfold _balance_node.
  destruct (Z.eqb_spec (bf s (Inner n)) 2) as [E2|N2]; cbn [andb].
  - (* leaning right *)
    destruct tr as [|tb y tc].
    { exfalso. rewrite Er in Ebf. cbn [top height] in Ebf. lia. }
    apply avl_inv in Har as (Hby & Hab & _).
    apply heights_ok_inv in Hhr as (Hy & Hhb & Hhc).
    rewrite Er. cbn [top].
    pose proof Htr as (_ & _ & _ & Htb & Htc).
    pose proof (tree_top _ _ _ _ Htb) as Eb.
    pose proof (height_nonneg s tb _ _ Htb Hhb) as Hb0.
    fold (left s (Inner y)) in Eb, Hb0.
    unfold height_ok in Hy. rewrite Er in Ebf. cbn [top] in Ebf.
    assert (Eby : bf s (Inner y) =
                  height s (right s (Inner y)) - height s (left s (Inner y)))
      by reflexivity.
    rewrite Z.geb_leb. destruct (Z.leb_spec 0 (bf s (Inner y))) as [Hge|Hlt].
    + destruct (single_left fuel s n y tl tb tc Hf Ht Hnd Hat)
        as (s' & Hrun & Hbf' & Htree & Hkeys & Hplace).
      exists y, s', (Br (Br tl n tb) y tc). unfold bind. rewrite Hrun.
      assert (Hr : -2 < bf s' (Inner y) < 2) by lia.
      split; [apply check_bf_ok; exact Hr|]. split; [exact Hr|].
      split; [exact Hplace|]. split; [exact Htree|]. split; [exact Hkeys|].
      apply (bst_of_keys s s' _ _ Hkeys Hbst).
    + destruct (Z.eqb_spec (bf s (Inner y)) (-1)) as [Em|Nm]; [|lia].
      destruct tb as [|tw1 w tw2].
      { exfalso. rewrite Eb in Eby, Hy. cbn [top height] in Eby, Hy.
        pose proof (height_nonneg s tc _ _ Htc Hhc) as Hc0.
        fold (right s (Inner y)) in Hc0. lia. }
      apply avl_inv in Hab as (Hbw & _ & _).
      apply heights_ok_inv in Hhb as (Hw & _ & _). unfold height_ok in Hw.
      rewrite Eb in Eby, Hy. cbn [top] in Eby, Hy.
      destruct (double_left fuel s n y w tl tw1 tw2 tc Hf Ht Hnd Hat Hbst)
        as (s1 & s2 & Hrun1 & Hrun2 & Hbf' & Htree & Hkeys & Hplace).
      exists w, s2, (Br (Br tl n tw1) w (Br tw2 y tc)).
      unfold bind. rewrite Hrun1, Hrun2.
      assert (Ebw : bf s (Inner w) =
                    height s (right s (Inner w)) - height s (left s (Inner w)))
        by reflexivity.
      assert (Hr : -2 < bf s2 (Inner w) < 2) by lia.
      split; [apply check_bf_ok; exact Hr|]. split; [exact Hr|].
      split; [exact Hplace|]. split; [exact Htree|]. split; [exact Hkeys|].
      apply (bst_of_keys s s2 _ _ Hkeys Hbst).
  - destruct (Z.eqb_spec (bf s (Inner n)) (-2)) as [Em2|Nm2]; cbn [andb].
    + (* leaning left *)
      destruct tl as [|tc y tb].
      { exfalso. rewrite El in Ebf. cbn [top height] in Ebf. lia. }
      apply avl_inv in Hal as (Hby & _ & Hab).
      apply heights_ok_inv in Hhl as (Hy & Hhc & Hhb).
      rewrite El. cbn [top].
      pose proof Htl as (_ & _ & _ & Htc & Htb).
      pose proof (tree_top _ _ _ _ Htb) as Eb.
      pose proof (height_nonneg s tb _ _ Htb Hhb) as Hb0.
      fold (right s (Inner y)) in Eb, Hb0.
      unfold height_ok in Hy. rewrite El in Ebf. cbn [top] in Ebf.
      assert (Eby : bf s (Inner y) =
                    height s (right s (Inner y)) - height s (left s (Inner y)))
        by reflexivity.
      destruct (Z.leb_spec (bf s (Inner y)) 0) as [Hle|Hgt].
      * destruct (single_right fuel s n y tc tb tr Hf Ht Hnd Hat)
          as (s' & Hrun & Hbf' & Htree & Hkeys & Hplace).
        exists y, s', (Br tc y (Br tb n tr)). unfold bind. rewrite Hrun.
        assert (Hr : -2 < bf s' (Inner y) < 2) by lia.
        split; [apply check_bf_ok; exact Hr|]. split; [exact Hr|].
        split; [exact Hplace|]. split; [exact Htree|]. split; [exact Hkeys|].
        apply (bst_of_keys s s' _ _ Hkeys Hbst).
      * destruct (Z.eqb_spec (bf s (Inner y)) 1) as [Em|Nm]; [|lia].
        destruct tb as [|tw1 w tw2].
        { exfalso. rewrite Eb in Eby, Hy. cbn [top height] in Eby, Hy.
          pose proof (height_nonneg s tc _ _ Htc Hhc) as Hc0.
          fold (left s (Inner y)) in Hc0. lia. }
        apply avl_inv in Hab as (Hbw & _ & _).
        apply heights_ok_inv in Hhb as (Hw & _ & _). unfold height_ok in Hw.
        rewrite Eb in Eby, Hy. cbn [top] in Eby, Hy.
        destruct (double_right fuel s n y w tr tw1 tw2 tc Hf Ht Hnd Hat)
          as (s1 & s2 & Hrun1 & Hrun2 & Hbf' & Htree & Hkeys & Hplace).
        exists w, s2, (Br (Br tc y tw1) w (Br tw2 n tr)).
        unfold bind. rewrite Hrun1, Hrun2.
        assert (Ebw : bf s (Inner w) =
                      height s (right s (Inner w)) - height s (left s (Inner w)))
          by reflexivity.
        assert (Hr : -2 < bf s2 (Inner w) < 2) by lia.
        split; [apply check_bf_ok; exact Hr|]. split; [exact Hr|].
        split; [exact Hplace|]. split; [exact Htree|]. split; [exact Hkeys|].
        apply (bst_of_keys s s2 _ _ Hkeys Hbst).
    + exists n, s, (Br tl n tr).
      assert (Hr : -2 < bf s (Inner n) < 2) by lia.
      split; [apply check_bf_ok; exact Hr|]. split; [exact Hr|].
      split; [apply (takes_place_refl s n _ Hat)|]. split; [exact Ht|].
      split; [reflexivity | exact Hbst].
Qed.

Lemma balance_node_restores_witness :
  (1 <> 0)%nat /\
  tree_at store_leaning (Inner 1) (parent (node store_leaning 1))
          (Br Leaf 1 (Br (Br Leaf 5 Leaf) 2 Leaf)) /\
  NoDup (addrs (Br Leaf 1 (Br (Br Leaf 5 Leaf) 2 Leaf))) /\
  attached store_leaning 1 (Br Leaf 1 (Br (Br Leaf 5 Leaf) 2 Leaf)) /\
  bst store_leaning (Br Leaf 1 (Br (Br Leaf 5 Leaf) 2 Leaf)) /\
  heights_ok store_leaning (Br Leaf 1 (Br (Br Leaf 5 Leaf) 2 Leaf)) /\
  avl store_leaning Leaf /\
  avl store_leaning (Br (Br Leaf 5 Leaf) 2 Leaf) /\
  -2 <= bf store_leaning (Inner 1) <= 2 /\
  exists m s' t',
    _balance_node 1 1 store_leaning = Ret m s' /\
    -2 < bf s' (Inner m) < 2 /\
    takes_place store_leaning 1 s' m /\
    tree_at s' (Inner m) (parent (node store_leaning 1)) t' /\
    keys s' t' = keys store_leaning (Br Leaf 1 (Br (Br Leaf 5 Leaf) 2 Leaf)) /\
    bst s' t'.
Proof.
  assert (Hf : (1 <> 0)%nat) by lia.
  assert (Ht : tree_at store_leaning (Inner 1) (parent (node store_leaning 1))
                       (Br Leaf 1 (Br (Br Leaf 5 Leaf) 2 Leaf))).
  { vm_compute. repeat split; lia. }
  assert (Hnd : NoDup (addrs (Br Leaf 1 (Br (Br Leaf 5 Leaf) 2 Leaf)))).
  { simpl. apply (bool_decide_unpack _). vm_compute. exact I. }
  assert (Hat : attached store_leaning 1 (Br Leaf 1 (Br (Br Leaf 5 Leaf) 2 Leaf))).
  { assert (E : parent (node store_leaning 1) = Some 3%nat) by (vm_compute; reflexivity).
    unfold attached. rewrite E. clear E. split; [vm_compute; lia|].
    split; [apply (bool_decide_unpack _); vm_compute; exact I|].
    left. vm_compute. reflexivity. }
  assert (Hb : bst store_leaning (Br Leaf 1 (Br (Br Leaf 5 Leaf) 2 Leaf))).
  { vm_compute. repeat split; repeat constructor. }
  assert (Hh : heights_ok store_leaning (Br Leaf 1 (Br (Br Leaf 5 Leaf) 2 Leaf))).
  { unfold heights_ok. cbn [addrs app].
    repeat first [apply List.Forall_nil
                 | apply List.Forall_cons; [vm_compute; reflexivity|]]. }
  assert (Hal : avl store_leaning Leaf) by apply List.Forall_nil.
  assert (Har : avl store_leaning (Br (Br Leaf 5 Leaf) 2 Leaf)).
  { unfold avl. cbn [addrs app].
    repeat first [apply List.Forall_nil
                 | apply List.Forall_cons; [vm_compute; split; discriminate|]]. }
  assert (Hbf : -2 <= bf store_leaning (Inner 1) <= 2).
  { vm_compute. split; discriminate. }
  split; [exact Hf|]. split; [exact Ht|]. split; [exact Hnd|]. split; [exact Hat|].
  split; [exact Hb|]. split; [exact Hh|]. split; [exact Hal|]. split; [exact Har|].
  split; [exact Hbf|].
  exact (balance_node_restores 1 store_leaning 1 _ _ Hf Ht Hnd Hat Hb Hh Hal Har Hbf).
Defined.

(** ** The membership round trip (C4) *)

(** C4. After inserting 1, 2, 4, 5, 6, 3, 7 and removing 1, the call
    [remove 6] raises [AssertionError] (the key is unlinked before), and so
    does [remove 7]; when the caller carries on with [remove 5] and
    [remove 4], which return, the tree contains the removed key 5 again. *)
Theorem roundtrip_breaks :
  exists s1 s2 s3 s4 s5,
    run 20 [Insert 1; Insert 2; Insert 4; Insert 5; Insert 6; Insert 3;
            Insert 7; Remove 1] init = Ret tt s1 /\
    remove 20 6 s1 = Raise AssertionError s2 /\
    contains 20 s2 6 = Some false /\
    remove 20 7 s2 = Raise AssertionError s3 /\
    remove 20 5 s3 = Ret tt s4 /\
    contains 20 s4 5 = Some false /\
    remove 20 4 s4 = Ret tt s5 /\
    contains 20 s5 5 = Some true.
Proof.
  do 5 eexists.
  repeat (split; [vm_compute; reflexivity|]).
  vm_compute. reflexivity.
Qed.

(** * Further properties of the code *)

(** ** Search ([__contains__]) and [rightmost] on a search-ordered region *)

Lemma contains_loop_bst s k : forall t r par fuel,
  tree_at s r par t -> bst s t -> (length (addrs t) < fuel)%nat ->
  contains_loop fuel s k r = Some (bool_decide (k ∈ keys s t)).
Proof.
  induction t as [|l IHl a r' IHr]; intros r par fuel Ht Hb Hf.
  - simpl in Ht. subst r. destruct fuel; reflexivity.
  - simpl in Ht. destruct Ht as (-> & Ha & _ & Hl & Hr).
    simpl in Hb. destruct Hb as (Hbl & Hbr & Fl & Fr).
    destruct fuel as [|fuel]; [simpl in Hf; lia|].
    simpl in Hf. rewrite length_app in Hf.
    rewrite Forall_forall in Fl, Fr.
    cbn [contains_loop keys].
    destruct (Z.eqb_spec (_value (node s a)) k) as [E|N].
    + rewrite bool_decide_eq_true_2; [reflexivity|]. set_solver.
    + destruct (Z.ltb_spec k (_value (node s a))) as [Hlt|Hge].
      * unfold left. rewrite (IHl _ _ fuel Hl Hbl) by lia. f_equal.
        apply bool_decide_ext. rewrite elem_of_app, elem_of_cons.
        split; [tauto|]. intros [H|[H|H]]; [exact H | congruence |].
        apply Fr in H. lia.
      * unfold right. rewrite (IHr _ _ fuel Hr Hbr) by lia. f_equal.
        apply bool_decide_ext. rewrite elem_of_app, elem_of_cons.
        split; [tauto|]. intros [H|[H|H]]; [| congruence | exact H].
        apply Fl in H. lia.
Qed.

(** X1. When the root of the tree is on top of a tree-shaped,
    search-ordered region, whatever the parent link of the root holds,
    [__contains__] returns (given fuel beyond the number of nodes) and
    answers exactly whether the key is one of the keys of the region; the
    store is only read. *)
Theorem contains_search_ordered (fuel : nat) (s : State) (par : option nat)
    (t : shape) (k : Z) :
  tree_at s (root s) par t -> bst s t -> (length (addrs t) < fuel)%nat ->
  contains fuel s k = Some (bool_decide (k ∈ keys s t)).
Proof. intros Ht Hb Hf. apply (contains_loop_bst s k t _ par fuel Ht Hb Hf). Qed.

Lemma rightmost_loop_last s : forall t a l r par fuel,
  t = Br l a r ->
  tree_at s (Inner a) par t -> (length (addrs t) <= fuel)%nat ->
  exists v, rightmost_loop fuel s (Inner a) = Some (Some v) /\
            last (keys s t) = Some v.
Proof.
  induction t as [|l0 IHl a0 r0 IHr]; intros a l r par fuel E Ht Hf; [discriminate|].
  injection E as -> -> ->.
  simpl in Ht. destruct Ht as (_ & Ha & _ & Hl & Hr).
  pose proof (tree_top _ _ _ _ Hr) as Er.
  destruct r as [|rl b rr].
  - exists (_value (node s a)). simpl in Er.
    destruct fuel; simpl; unfold right; rewrite Er;
      (split; [reflexivity|]); cbn [keys]; rewrite last_snoc; reflexivity.
  - cbn [top] in Er. simpl in Hf. rewrite length_app in Hf. simpl in Hf.
    destruct fuel as [|fuel]; [lia|].
    rewrite Er in Hr.
    destruct (IHr b rl rr (Some a) fuel eq_refl Hr) as (v & Hv & Hlast).
    { simpl. lia. }
    exists v. split.
    + cbn [rightmost_loop]. unfold right at 1 2. rewrite Er. exact Hv.
    + change (keys s (Br l a (Br rl b rr)))
        with (keys s l ++ _value (node s a) :: keys s (Br rl b rr)).
      rewrite last_app. rewrite last_cons. rewrite Hlast. reflexivity.
Qed.

Lemma bst_last_max s : forall t v,
  bst s t -> last (keys s t) = Some v -> Forall (fun k => k <= v) (keys s t).
Proof.
  induction t as [|l IHl a r IHr]; intros v Hb Hlast; [constructor|].
  simpl in Hb. destruct Hb as (Hbl & Hbr & Fl & Fr).
  cbn [keys] in Hlast |- *. rewrite last_app, last_cons in Hlast.
  destruct (last (keys s r)) as [w|] eqn:Er.
  - injection Hlast as ->.
    assert (Hv : _value (node s a) < v).
    { rewrite Forall_forall in Fr. apply Fr. apply last_Some_elem_of. exact Er. }
    apply Forall_app. split; [| apply Forall_cons; split; [lia | apply IHr; auto]].
    eapply Forall_impl; [exact Fl|]. cbv beta. intros; lia.
  - injection Hlast as <-.
    destruct (keys s r) as [|k0 ks] eqn:Ek.
    + apply Forall_app. split; [| apply Forall_cons; split; [lia | constructor]].
      eapply Forall_impl; [exact Fl|]. cbv beta. intros; lia.
    + exfalso. clear -Er. revert k0 Er. induction ks; intros; simpl in *; [discriminate|].
      eapply IHks. exact Er.
Qed.

(** X2. [rightmost] refuses the empty tree with an [AssertionError]; on
    a tree-shaped region it returns (given fuel for the nodes) the last
    key in order and leaves the store as it is; in a search-ordered region
    that key is the maximum. *)
Theorem rightmost_is_last (fuel : nat) (s : State) (r : Node) (par : option nat)
    (t : shape) :
  tree_at s r par t -> (length (addrs t) <= fuel)%nat ->
  match t with
  | Leaf => rightmost fuel r s = Raise AssertionError s
  | Br _ _ _ =>
      exists v, rightmost fuel r s = Ret v s /\ last (keys s t) = Some v /\
                (bst s t -> Forall (fun k => k <= v) (keys s t))
  end.
Proof.
  intros Ht Hf. destruct t as [|l a r'].
  - simpl in Ht. subst r. reflexivity.
  - pose proof Ht as (-> & _).
    destruct (rightmost_loop_last s _ a l r' par fuel eq_refl Ht Hf) as (v & Hv & Hlast).
    exists v. unfold rightmost. rewrite Hv.
    split; [reflexivity|]. split; [exact Hlast|].
    intros Hb. apply (bst_last_max s _ v Hb Hlast).
Qed.

Lemma store_12456_tree : tree_at store_12456 (root store_12456) None shape_12456.
Proof. vm_compute. repeat split; lia. Qed.

Lemma store_12456_bst : bst store_12456 shape_12456.
Proof. vm_compute. repeat split; repeat constructor. Qed.

Lemma contains_search_ordered_witness :
  tree_at store_12456 (root store_12456) None shape_12456 /\
  bst store_12456 shape_12456 /\
  (length (addrs shape_12456) < 6)%nat /\
  contains 6 store_12456 4 = Some (bool_decide (4 ∈ keys store_12456 shape_12456)).
Proof.
  assert (Hf : (length (addrs shape_12456) < 6)%nat) by (vm_compute; lia).
  split; [exact store_12456_tree|]. split; [exact store_12456_bst|].
  split; [exact Hf|].
  exact (contains_search_ordered 6 store_12456 None shape_12456 4
           store_12456_tree store_12456_bst Hf).
Defined.

Lemma rightmost_is_last_witness :
  tree_at store_12456 (root store_12456) None shape_12456 /\
  (length (addrs shape_12456) <= 5)%nat /\
  exists v, rightmost 5 (root store_12456) store_12456 = Ret v store_12456 /\
            last (keys store_12456 shape_12456) = Some v /\
            (bst store_12456 shape_12456 ->
             Forall (fun k => k <= v) (keys store_12456 shape_12456)).
Proof.
  assert (Hf : (length (addrs shape_12456) <= 5)%nat) by (vm_compute; lia).
  split; [exact store_12456_tree|]. split; [exact Hf|].
  exact (rightmost_is_last 5 store_12456 _ None shape_12456 store_12456_tree Hf).
Defined.

(** ** Child-slot writes and the child tests *)

(** X3. A write to the left (right) slot of an allocated node [a] with a
    child [v] other than [a] itself stores [v], keeps the other slot and
    the key, points the parent link of [v] (the attribute of [Empty] when
    [v] is [Empty]) to [a], and leaves the cached height of [a] in
    agreement with the cached heights of its two children. *)
Theorem setter_links_and_height (s : State) (a : nat) (v : Node) :
  (a < length (heap s))%nat -> valid s v -> v <> Inner a ->
  (right s (Inner a) <> Inner a ->
   left (set_left a v s) (Inner a) = v /\
   right (set_left a v s) (Inner a) = right s (Inner a) /\
   value (set_left a v s) (Inner a) = value s (Inner a) /\
   get_parent (set_left a v s) v = Some a /\
   height_ok (set_left a v s) a) /\
  (left s (Inner a) <> Inner a ->
   right (set_right a v s) (Inner a) = v /\
   left (set_right a v s) (Inner a) = left s (Inner a) /\
   value (set_right a v s) (Inner a) = value s (Inner a) /\
   get_parent (set_right a v s) v = Some a /\
   height_ok (set_right a v s) a).
Proof.
  intros Ha Hv Hva. split; intros Hother.
  - destruct (set_left_spec a v s Ha Hv) as (L & R & E & N).
    assert (Na : node (set_left a v s) a =
      mkInner (_value (node s a)) v (_right (node s a))
              (Z.max (height s v) (height s (_right (node s a))) + 1)
              (parent (node s a))).
    { rewrite N. rewrite decide_True by reflexivity.
      rewrite decide_False by exact Hva. reflexivity. }
    assert (Hh : forall q, q <> Inner a -> height (set_left a v s) q = height s q).
    { intros [|k] Hq; [reflexivity|]. unfold height. rewrite N.
      rewrite decide_False by congruence.
      destruct (decide (v = Inner k)); reflexivity. }
    split; [unfold left; rewrite Na; reflexivity|].
    split; [unfold right at 1; rewrite Na; reflexivity|].
    split; [unfold value; rewrite Na; reflexivity|].
    split.
    + destruct v as [|k]; cbn [get_parent].
      * rewrite E. reflexivity.
      * rewrite N. rewrite decide_False by congruence.
        rewrite decide_True by reflexivity. reflexivity.
    + unfold height_ok. unfold left at 1, right at 1. rewrite Na. cbn [_left _right].
      rewrite (Hh v Hva), (Hh (_right (node s a)) Hother).
      unfold height at 1. rewrite Na. reflexivity.
  - destruct (set_right_spec a v s Ha Hv) as (L & R & E & N).
    assert (Na : node (set_right a v s) a =
      mkInner (_value (node s a)) (_left (node s a)) v
              (Z.max (height s (_left (node s a))) (height s v) + 1)
              (parent (node s a))).
    { rewrite N. rewrite decide_True by reflexivity.
      rewrite decide_False by exact Hva. reflexivity. }
    assert (Hh : forall q, q <> Inner a -> height (set_right a v s) q = height s q).
    { intros [|k] Hq; [reflexivity|]. unfold height. rewrite N.
      rewrite decide_False by congruence.
      destruct (decide (v = Inner k)); reflexivity. }
    split; [unfold right; rewrite Na; reflexivity|].
    split; [unfold left at 1; rewrite Na; reflexivity|].
    split; [unfold value; rewrite Na; reflexivity|].
    split.
    + destruct v as [|k]; cbn [get_parent].
      * rewrite E. reflexivity.
      * rewrite N. rewrite decide_False by congruence.
        rewrite decide_True by reflexivity. reflexivity.
    + unfold height_ok. unfold left at 1, right at 1. rewrite Na. cbn [_left _right].
      rewrite (Hh v Hva), (Hh (_left (node s a)) Hother).
      unfold height at 1. rewrite Na. reflexivity.
Qed.

Lemma setter_links_and_height_witness :
  (3 < length (heap store_12456))%nat /\ valid store_12456 Empty /\
  Empty <> Inner 3 /\
  (right store_12456 (Inner 3) <> Inner 3 ->
   left (set_left 3 Empty store_12456) (Inner 3) = Empty /\
   right (set_left 3 Empty store_12456) (Inner 3) = right store_12456 (Inner 3) /\
   value (set_left 3 Empty store_12456) (Inner 3) = value store_12456 (Inner 3) /\
   get_parent (set_left 3 Empty store_12456) Empty = Some 3%nat /\
   height_ok (set_left 3 Empty store_12456) 3).
Proof.
  assert (Ha : (3 < length (heap store_12456))%nat) by (vm_compute; lia).
  assert (Hv : valid store_12456 Empty) by exact I.
  assert (Hn : Empty <> Inner 3) by discriminate.
  split; [exact Ha|]. split; [exact Hv|]. split; [exact Hn|].
  exact (proj1 (setter_links_and_height store_12456 3 Empty Ha Hv Hn)).
Defined.

(** X4. The child tests.  A node without parent is neither a left nor a
    right child.  For a node [n] with parent [p]: [is_left] is true when
    the left slot of [p] holds [n] itself, and (with room for one
    comparison) false when that slot is empty or holds a node with another
    key; likewise [is_right] and the right slot. *)
Theorem child_tests (fuel : nat) (s : State) (n : nat) :
  (parent (node s n) = None ->
   is_left fuel s (Inner n) = Some false /\ is_right fuel s (Inner n) = Some false) /\
  (forall p, parent (node s n) = Some p ->
     (left s (Inner p) = Inner n -> is_left fuel s (Inner n) = Some true) /\
     (right s (Inner p) = Inner n -> is_right fuel s (Inner n) = Some true) /\
     (fuel <> O -> value s (left s (Inner p)) <> value s (Inner n) ->
      is_left fuel s (Inner n) = Some false) /\
     (fuel <> O -> value s (right s (Inner p)) <> value s (Inner n) ->
      is_right fuel s (Inner n) = Some false)).
Proof.
  split.
  - intros Hp. unfold is_left, is_right, get_parent. rewrite Hp. split; reflexivity.
  - intros p Hp. unfold is_left, is_right, get_parent. rewrite Hp.
    split; [intros ->; apply node_eq_refl|].
    split; [intros ->; apply node_eq_refl|].
    split; intros Hf Hv; apply node_eq_other_key; assumption.
Qed.

Lemma child_tests_witness :
  is_left 1 store_12456 (Inner 1) = Some false /\
  is_right 1 store_12456 (Inner 1) = Some false /\
  is_right 1 store_12456 (Inner 3) = Some true /\
  is_left 1 store_12456 (Inner 3) = Some false.
Proof.
  assert (E1 : parent (node store_12456 1) = None) by (vm_compute; reflexivity).
  assert (E3 : parent (node store_12456 3) = Some 1%nat) by (vm_compute; reflexivity).
  assert (Er : right store_12456 (Inner 1) = Inner 3) by (vm_compute; reflexivity).
  assert (Hf : (1 <> 0)%nat) by lia.
  assert (Hv : value store_12456 (left store_12456 (Inner 1)) <>
               value store_12456 (Inner 3)) by (vm_compute; discriminate).
  destruct (child_tests 1 store_12456 1) as [H1 _].
  destruct (child_tests 1 store_12456 3) as [_ H3].
  destruct (H1 E1) as [Ha Hb]. destruct (H3 1%nat E3) as (_ & Hc & Hd & _).
  split; [exact Ha|]. split; [exact Hb|]. split; [exact (Hc Er)|]. exact (Hd Hf Hv).
Defined.

(** ** What insertion and removal leave alone *)

Section Frame.
(** A relation between the store before and after that the attribute
    writes of the rebalancing code respect. *)
Variable R : State -> State -> Prop.
Hypothesis R_refl : forall s, R s s.
Hypothesis R_trans : forall s1 s2 s3, R s1 s2 -> R s2 s3 -> R s1 s3.
Hypothesis R_upd : forall a f s,
  (forall n, _value (f n) = _value n) -> R s (upd a f s).
Hypothesis R_empty : forall p s, R s (mkState (heap s) p (root s)).
Hypothesis R_root : forall a s, R s (set_root (Inner a) s).
Hypothesis R_root_any : forall r s, R s (set_root r s).
Hypothesis R_value : forall a v s, R s (set_value a v s).

Local Notation "'frames' m" := (forall s, outcome (m s) (R s))
  (at level 10, m at level 9).

Lemma frames_bind {A B : Type} (m : M A) (k : A -> M B) :
  frames m -> (forall a, frames (k a)) -> frames (bind m k).
Proof.
  intros Hm Hk s. unfold bind. specialize (Hm s).
  destruct (m s) as [a s'|e s'|]; simpl in *; [|exact Hm|exact I].
  specialize (Hk a s'). destruct (k a s') as [b s''|e s''|]; simpl in *;
    [eapply R_trans; eassumption | eapply R_trans; eassumption | exact I].
Qed.

Lemma frames_get {A : Type} (f : State -> A) : frames (get f).
Proof. intros s. apply R_refl. Qed.

Lemma frames_put (f : State -> State) : (forall s, R s (f s)) -> frames (put f).
Proof. intros H s. apply H. Qed.

Lemma frames_ret {A : Type} (a : A) : frames (ret a).
Proof. intros s. apply R_refl. Qed.

Lemma frames_raise {A : Type} (e : Exn) : frames (raise (A := A) e).
Proof. intros s. apply R_refl. Qed.

Lemma R_assign_parent r p s : R s (assign_parent r p s).
Proof. destruct r; simpl; [apply R_empty | apply R_upd; reflexivity]. Qed.

Lemma R_set_left a v s : R s (set_left a v s).
Proof.
  unfold set_left, recompute_height.
  eapply R_trans; [apply (R_upd a (with_left v)); reflexivity|].
  eapply R_trans; [apply R_assign_parent|]. apply R_upd. reflexivity.
Qed.

Lemma R_set_right a v s : R s (set_right a v s).
Proof.
  unfold set_right, recompute_height.
  eapply R_trans; [apply (R_upd a (with_right v)); reflexivity|].
  eapply R_trans; [apply R_assign_parent|]. apply R_upd. reflexivity.
Qed.

Lemma frames_set_parent fuel y old : frames (_set_parent fuel (Inner y) old).
Proof.
  unfold _set_parent. apply frames_bind; [apply frames_get|]. intros [p|].
  - apply frames_bind; [apply frames_put; intros; apply R_assign_parent|].
    intros _. apply frames_bind.
    + intros s. destruct (is_left fuel s old); simpl; apply R_refl.
    + intros il. apply frames_bind; [apply frames_get|]. intros [q|].
      * destruct il; apply frames_put; intros;
          [apply R_set_left | apply R_set_right].
      * apply frames_raise.
  - apply frames_bind; [apply frames_put; intros; apply R_root|].
    intros _. apply frames_put. intros. apply R_assign_parent.
Qed.

Lemma frames_rot_left fuel x : frames (_rot_left fuel x).
Proof.
  unfold _rot_left. apply frames_bind; [apply frames_get|]. intros y.
  apply frames_bind; [apply frames_get|]. intros b.
  destruct y as [|ya]; [apply frames_raise|].
  apply frames_bind; [apply frames_set_parent|]. intros _.
  apply frames_bind; [apply frames_put; intros; apply R_set_right|]. intros _.
  apply frames_bind; [apply frames_put; intros; apply R_set_left|]. intros _.
  apply frames_ret.
Qed.

Lemma frames_rot_right fuel x : frames (_rot_right fuel x).
Proof.
  unfold _rot_right. apply frames_bind; [apply frames_get|]. intros y.
  apply frames_bind; [apply frames_get|]. intros b.
  destruct y as [|ya]; [apply frames_raise|].
  apply frames_bind; [apply frames_set_parent|]. intros _.
  apply frames_bind; [apply frames_put; intros; apply R_set_left|]. intros _.
  apply frames_bind; [apply frames_put; intros; apply R_set_right|]. intros _.
  apply frames_ret.
Qed.

Lemma frames_check_bf n : frames (check_bf n).
Proof. intros s. unfold check_bf. destruct (_ && _); simpl; apply R_refl. Qed.

Lemma frames_balance_node fuel n : frames (_balance_node fuel n).
Proof.
  intros s. unfold _balance_node.
  destruct (_ && _).
  { apply (frames_bind (_rot_left fuel n) check_bf);
      [apply frames_rot_left | intros; apply frames_check_bf]. }
  destruct (_ && _).
  { destruct (right s (Inner n)) as [|r]; [simpl; apply R_refl|].
    apply (frames_bind (_rot_right fuel r)); [apply frames_rot_right|]. intros _.
    apply frames_bind; [apply frames_rot_left | intros; apply frames_check_bf]. }
  destruct (_ && _).
  { apply (frames_bind (_rot_right fuel n) check_bf);
      [apply frames_rot_right | intros; apply frames_check_bf]. }
  destruct (_ && _).
  { destruct (left s (Inner n)) as [|l]; [simpl; apply R_refl|].
    apply (frames_bind (_rot_left fuel l)); [apply frames_rot_left|]. intros _.
    apply frames_bind; [apply frames_rot_right | intros; apply frames_check_bf]. }
  apply frames_check_bf.
Qed.

Lemma frames_rebalance fuel : forall n, frames (_rebalance fuel n).
Proof.
  induction fuel as [|fuel IH]; intros n s; simpl.
  - destruct (get_parent s n); simpl; [exact I | apply R_refl].
  - destruct (get_parent s n) as [p|]; [|simpl; apply R_refl].
    apply (frames_bind (_balance_node (S fuel) p));
      [apply frames_balance_node | intros; apply IH].
Qed.

Lemma frames_set_child_inner fuel par a is_l :
  frames (_set_child fuel par (Inner a) is_l).
Proof.
  unfold _set_child. destruct par as [p|].
  - apply frames_bind; [| intros; apply frames_rebalance].
    destruct is_l; apply frames_put; intros;
      [apply R_set_left | apply R_set_right].
  - apply frames_put. intros. apply R_root.
Qed.

Lemma frames_set_child fuel par child is_l :
  frames (_set_child fuel par child is_l).
Proof.
  unfold _set_child. destruct par as [p|].
  - apply frames_bind; [| intros; apply frames_rebalance].
    destruct is_l; apply frames_put; intros;
      [apply R_set_left | apply R_set_right].
  - apply frames_put. intros. apply R_root_any.
Qed.

Lemma frames_rightmost fuel t : frames (rightmost fuel t).
Proof.
  intros s. unfold rightmost. destruct t; [simpl; apply R_refl|].
  destruct (rightmost_loop fuel s (Inner a)) as [[v|]|]; simpl;
    [apply R_refl | apply R_refl | exact I].
Qed.

Lemma frames_remove fuel : forall val t p wl, frames (_remove fuel val t p wl).
Proof.
  induction fuel as [|fuel IH]; intros val t p wl s.
  - destruct t; simpl; [apply R_refl | exact I].
  - destruct t as [|n]; [simpl; apply R_refl|].
    cbn [_remove].
    destruct (val =? _value (node s n)).
    + destruct (left s (Inner n)) as [|l] eqn:El.
      { apply frames_set_child. }
      destruct (right s (Inner n)) as [|r] eqn:Er.
      { apply frames_set_child. }
      apply (frames_bind (rightmost (S fuel) (Inner l))); [apply frames_rightmost|].
      intros v. apply frames_bind; [apply frames_put; intros; apply R_value|].
      intros _. apply frames_bind; [apply frames_get|]. intros v'.
      apply frames_bind; [apply frames_get|]. intros l'. apply IH.
    + destruct (val <? _value (node s n)); apply IH.
Qed.

Hypothesis R_new : forall v s, R s (snd (new_inner v s)).

Lemma frames_insert fuel k : frames (insert fuel k).
Proof.
  intros s. unfold insert.
  destruct (insert_find fuel s k (root s) None true) as [[[p wl]|]|];
    [| simpl; apply R_refl | exact I].
  pose proof (R_new k s) as Hnew.
  destruct (new_inner k s) as [a s1]. cbn [snd] in Hnew.
  pose proof (frames_set_child_inner fuel p a wl s1) as H.
  destruct (_set_child fuel p (Inner a) wl s1) as [u s'|e s'|]; simpl in *;
    [eapply R_trans; eassumption | eapply R_trans; eassumption | exact I].
Qed.
End Frame.

Lemma keeps_keys_upd a f s :
  (forall n, _value (f n) = _value n) -> keeps_keys s (upd a f s).
Proof.
  intros Hf. split; [rewrite length_upd; lia|]. intros k Hk.
  destruct (decide (a = k)) as [->|Hak].
  - rewrite node_upd_eq by exact Hk. apply Hf.
  - rewrite node_upd_ne by exact Hak. reflexivity.
Qed.

Lemma keeps_keys_refl s : keeps_keys s s.
Proof. split; [lia | reflexivity]. Qed.

Lemma keeps_keys_heap s s' : heap s' = heap s -> keeps_keys s s'.
Proof.
  intros E. split; [rewrite E; lia|]. intros k _. unfold node. rewrite E. reflexivity.
Qed.

Lemma keeps_keys_trans s1 s2 s3 :
  keeps_keys s1 s2 -> keeps_keys s2 s3 -> keeps_keys s1 s3.
Proof.
  intros [L1 V1] [L2 V2]. split; [lia|]. intros k Hk.
  rewrite V2 by lia. apply V1, Hk.
Qed.

Lemma keeps_keys_assign r p s : keeps_keys s (assign_parent r p s).
Proof.
  destruct r; simpl;
    [apply keeps_keys_heap; reflexivity | apply keeps_keys_upd; reflexivity].
Qed.

Lemma keeps_keys_new v s : keeps_keys s (snd (new_inner v s)).
Proof.
  unfold new_inner, recompute_height. cbn [snd].
  eapply keeps_keys_trans; [| apply keeps_keys_upd; reflexivity].
  eapply keeps_keys_trans; [| apply keeps_keys_assign].
  eapply keeps_keys_trans; [| apply keeps_keys_assign].
  split; [simpl; rewrite length_app; lia|]. intros k Hk.
  unfold node. simpl. rewrite lookup_app_l by exact Hk. reflexivity.
Qed.

Lemma length_new v s : length (heap (snd (new_inner v s))) = S (length (heap s)).
Proof.
  unfold new_inner, recompute_height. cbn [snd].
  rewrite length_upd, !length_assign_parent. simpl. rewrite length_app. simpl. lia.
Qed.

Lemma same_objects_trans s1 s2 s3 :
  same_objects s1 s2 -> same_objects s2 s3 -> same_objects s1 s3.
Proof. unfold same_objects. congruence. Qed.

(** X5. Whatever store and key [insert] is given, and whether it returns
    or raises: every node that existed keeps its key, and at most one node
    has been created. *)
Theorem insert_keeps_keys (fuel : nat) (k : Z) (s : State) :
  outcome (insert fuel k s)
    (fun s' => keeps_keys s s' /\ (length (heap s') <= S (length (heap s)))%nat).
Proof.
  pose proof (frames_insert keeps_keys keeps_keys_refl keeps_keys_trans
                keeps_keys_upd (fun p s => keeps_keys_heap _ _ eq_refl)
                (fun a s => keeps_keys_heap _ _ eq_refl) keeps_keys_new fuel k s) as Hk.
  unfold insert in *.
  destruct (insert_find fuel s k (root s) None true) as [[[p wl]|]|];
    [| simpl in *; split; [exact Hk | lia] | exact I].
  pose proof (length_new k s) as Hl.
  destruct (new_inner k s) as [a s1]. cbn [snd] in Hl.
  pose proof (frames_set_child_inner same_objects (fun s => eq_refl)
                same_objects_trans
                (fun a f s _ => length_upd a f s) (fun p s => eq_refl)
                (fun a s => eq_refl) fuel p a wl s1) as Hs.
  unfold same_objects in Hs.
  destruct (_set_child fuel p (Inner a) wl s1) as [u s'|e s'|]; simpl in *;
    [split; [exact Hk | lia] | split; [exact Hk | lia] | exact I].
Qed.

Lemma stays_nonempty_trans s1 s2 s3 :
  stays_nonempty s1 s2 -> stays_nonempty s2 s3 -> stays_nonempty s1 s3.
Proof. unfold stays_nonempty. auto. Qed.

Lemma insert_find_empty fuel s k p wl :
  insert_find fuel s k Empty p wl = Some (Some (p, wl)).
Proof. destruct fuel; reflexivity. Qed.

(** X6. Whatever store and key [insert] is given, and whether it returns
    or raises, the tree is non-empty afterwards ([__bool__] is true). *)
Theorem insert_nonempty (fuel : nat) (k : Z) (s : State) :
  outcome (insert fuel k s) (fun s' => nonempty s' = true).
Proof.
  assert (Hne : forall s', root s' <> Empty -> nonempty s' = true).
  { intros s' H. unfold nonempty. destruct (root s'); [congruence | reflexivity]. }
  unfold insert.
  destruct (insert_find fuel s k (root s) None true) as [[[p wl]|]|] eqn:Ef;
    [| simpl | exact I].
  - assert (Hroot : p <> None -> root s <> Empty).
    { intros Hp Hr. rewrite Hr, insert_find_empty in Ef. congruence. }
    destruct (new_inner k s) as [a s1] eqn:En.
    assert (Hr1 : root s1 = root s).
    { unfold new_inner, recompute_height in En. injection En as _ <-.
      rewrite root_upd, !root_assign_parent. reflexivity. }
    destruct p as [p|].
    + pose proof (frames_set_child_inner stays_nonempty (fun s H => H)
                    stays_nonempty_trans (fun a f s _ H => H) (fun p s H => H)
                    (fun a s _ => ltac:(discriminate)) fuel (Some p) a wl s1) as H.
      unfold stays_nonempty in H. rewrite Hr1 in H.
      destruct (_set_child fuel (Some p) (Inner a) wl s1) as [u s'|e s'|];
        simpl in *; [apply Hne, H, Hroot; discriminate
                    | apply Hne, H, Hroot; discriminate | exact I].
    + simpl. reflexivity.
  - apply Hne. intros Hr. rewrite Hr, insert_find_empty in Ef. discriminate.
Qed.

(** X7. Whatever store and key [remove] is given, and whether it returns
    or raises, it creates no node. *)
Theorem remove_creates_nothing (fuel : nat) (k : Z) (s : State) :
  outcome (remove fuel k s) (same_objects s).
Proof.
  unfold remove.
  apply (frames_remove same_objects (fun s => eq_refl) same_objects_trans
           (fun a f s _ => length_upd a f s) (fun p s => eq_refl)
           (fun a s => eq_refl) (fun r s => eq_refl)
           (fun a v s => length_upd a _ s)).
Qed.

(** X8. Whatever store and node [_balance_node] is given, and whether it
    returns or raises: the rotations create no node and change no key. *)
Theorem balance_node_keeps_nodes (fuel : nat) (n : nat) (s : State) :
  outcome (_balance_node fuel n s)
    (fun s' => same_objects s s' /\ keeps_keys s s').
Proof.
  pose proof (frames_balance_node keeps_keys keeps_keys_refl keeps_keys_trans
                keeps_keys_upd (fun p s => keeps_keys_heap _ _ eq_refl)
                (fun a s => keeps_keys_heap _ _ eq_refl) fuel n s) as Hk.
  pose proof (frames_balance_node same_objects (fun s => eq_refl)
                same_objects_trans
                (fun a f s _ => length_upd a f s) (fun p s => eq_refl)
                (fun a s => eq_refl) fuel n s) as Hs.
  destruct (_balance_node fuel n s); simpl in *; tauto.
Qed.

(** ** [_rot_right] and [_set_parent] *)

(** X9. Let [x] be on top of a tree-shaped region of distinct objects with
    an Inner left child [y]; let the parent of [x], if it has one, be an
    object outside the region that holds [x] in its left slot, or in its
    right slot with a left slot that is Empty or holds another key.
    [_rot_right x] returns [y]; [y] takes the parent link of
    [x] and its place (the slot of that parent, or the root of the tree);
    the left slot of [x] holds the former right child of [y], whose parent
    link points to [x]; the right slot of [y] holds [x], whose parent link
    points to [y]; the cached heights of [x] and then of [y] agree with
    those of their children. *)
Theorem rot_right_relinks (fuel : nat) (s : State) (x y : nat) (ta tb tc : shape) :
  fuel <> O ->
  tree_at s (Inner x) (parent (node s x)) (Br (Br tc y tb) x ta) ->
  NoDup (addrs (Br (Br tc y tb) x ta)) ->
  attached s x (Br (Br tc y tb) x ta) ->
  exists s',
    _rot_right fuel x s = Ret y s' /\
    parent (node s' y) = parent (node s x) /\
    match parent (node s x) with
    | None => root s' = Inner y
    | Some p => replaced_in s s' p (Inner x) (Inner y)
    end /\
    right s' (Inner x) = right s (Inner x) /\
    left s' (Inner x) = right s (Inner y) /\
    get_parent s' (right s (Inner y)) = Some x /\
    right s' (Inner y) = Inner x /\
    left s' (Inner y) = left s (Inner y) /\
    parent (node s' x) = Some y /\
    height_ok s' x /\ height_ok s' y.
Proof.
  intros Hf Ht Hnd Hat.
  destruct (rot_ready_right fuel s x y ta tb tc Hf Ht Hnd Hat)
    as (Hxy & Ea & Eb & Ec & Dax & Day & Dcy & Hready).
  rewrite <- Ea, <- Eb, <- Ec in Hready. rewrite <- Ea in Dax, Day.
  rewrite <- Ec in Dcy.
  destruct (rot_right_spec fuel s x y Hxy Hready) as (s' & Hrun & Hpost).
  exists s'. split; [exact Hrun|].
  pose proof Hpost as (HL & Nx & Ny & HR & HE & Hb & Hp & Ho).
  destruct Hready as (Hx & Hy & Hne & Hvb & Hbx & Hby & Hcx & _ & Hpar).
  assert (Hha : height s' (right s (Inner x)) = height s (right s (Inner x))).
  { apply (rot_right_post_height s x y s' _ Hpost); [exact Dax | exact Day |].
    intros p Ep. rewrite Ep in Hpar. tauto. }
  assert (Hhb : height s' (right s (Inner y)) = height s (right s (Inner y))).
  { apply (rot_right_post_height s x y s' _ Hpost); [exact Hbx | exact Hby |].
    intros p Ep. rewrite Ep in Hpar. tauto. }
  assert (Hhc : height s' (left s (Inner y)) = height s (left s (Inner y))).
  { apply (rot_right_post_height s x y s' _ Hpost); [exact Hcx | exact Dcy |].
    intros p Ep. rewrite Ep in Hpar. tauto. }
  split; [rewrite Ny; reflexivity|].
  split.
  { destruct (parent (node s x)) as [p|] eqn:Ep; [|exact HR].
    specialize (Hp p eq_refl). unfold replaced_in, left, right. rewrite Hp.
    split; intros Hl.
    - rewrite decide_True by exact Hl. split; reflexivity.
    - rewrite decide_False by exact Hl. split; reflexivity. }
  split; [unfold right at 1; rewrite Nx; reflexivity|].
  split; [unfold left; rewrite Nx; reflexivity|].
  split.
  { destruct (right s (Inner y)) as [|k] eqn:El.
    - simpl. exact HE.
    - simpl. rewrite (Hb k eq_refl). reflexivity. }
  split; [unfold right; rewrite Ny; reflexivity|].
  split; [unfold left at 1; rewrite Ny; reflexivity|].
  split; [rewrite Nx; reflexivity|].
  split.
  - unfold height_ok. unfold left at 1, right at 1. rewrite Nx. cbn [_left _right].
    rewrite Hha, Hhb. unfold height at 1. rewrite Nx. reflexivity.
  - unfold height_ok. unfold left at 1, right at 1. rewrite Ny. cbn [_left _right].
    rewrite Hhc. unfold height at 1 3. rewrite Ny, Nx. reflexivity.
Qed.

Lemma rot_right_relinks_witness :
  (1 <> 0)%nat /\
  tree_at store_12456 (Inner 1) (parent (node store_12456 1)) shape_12456 /\
  NoDup (addrs shape_12456) /\
  attached store_12456 1 shape_12456 /\
  exists s', _rot_right 1 1 store_12456 = Ret 0%nat s' /\
             height_ok s' 1 /\ height_ok s' 0.
Proof.
  assert (Hf : (1 <> 0)%nat) by lia.
  assert (Ht : tree_at store_12456 (Inner 1) (parent (node store_12456 1)) shape_12456).
  { vm_compute. repeat split; lia. }
  assert (Hnd : NoDup (addrs shape_12456)).
  { apply (bool_decide_unpack _). vm_compute. exact I. }
  assert (Hat : attached store_12456 1 shape_12456).
  { assert (E : parent (node store_12456 1) = None) by (vm_compute; reflexivity).
    unfold attached. rewrite E. exact I. }
  split; [exact Hf|]. split; [exact Ht|]. split; [exact Hnd|]. split; [exact Hat|].
  destruct (rot_right_relinks 1 store_12456 1 0 _ _ _ Hf Ht Hnd Hat)
    as (s' & Hrun & _ & _ & _ & _ & _ & _ & _ & _ & Hx & Hy).
  exists s'. split; [exact Hrun|]. split; [exact Hx | exact Hy].
Defined.

(** ** Rotations keep the keys in order *)

(** X10. Let [x] be on top of a tree-shaped region of distinct objects
    with an Inner right child [y]; let the parent of [x], if it has one, be
    an object outside the region that holds [x] in its left slot, or in its
    right slot with a left slot that is Empty or holds another key.
    [_rot_left x] returns [y] on top of a tree-shaped region again, with
    [x] as its left child over the former left subtrees of [x] and of [y];
    the keys read in order are the same as before, and a search-ordered
    region stays search-ordered. *)
Theorem rot_left_keeps_order (fuel : nat) (s : State) (x y : nat)
    (ta tb tc : shape) :
  fuel <> O ->
  tree_at s (Inner x) (parent (node s x)) (Br ta x (Br tb y tc)) ->
  NoDup (addrs (Br ta x (Br tb y tc))) ->
  attached s x (Br ta x (Br tb y tc)) ->
  exists s',
    _rot_left fuel x s = Ret y s' /\
    tree_at s' (Inner y) (parent (node s x)) (Br (Br ta x tb) y tc) /\
    keys s' (Br (Br ta x tb) y tc) = keys s (Br ta x (Br tb y tc)) /\
    (bst s (Br ta x (Br tb y tc)) -> bst s' (Br (Br ta x tb) y tc)).
Proof.
  intros Hf Ht Hnd Hat.
  destruct (rot_ready_left fuel s x y ta tb tc Hf Ht Hnd Hat)
    as (Hxy & Ea & Eb & Ec & Hready).
  rewrite <- Ea, <- Eb, <- Ec in Hready.
  destruct (rot_left_spec fuel s x y Hxy Hready) as (s' & Hrun & Hpost).
  exists s'. split; [exact Hrun|].
  assert (V : forall k, _value (node s' k) = _value (node s k))
    by (intros k; apply (rot_left_post_value s x y s' k Hpost)).
  destruct (rot_left_region s x y s' ta tb tc Hpost Ht Hnd) as [Htree Hkeys].
  { intros p Ep. apply (attached_outside s x _ p Hat Ep). }
  split; [exact Htree|]. split; [exact Hkeys|].
  intros (Bta & (Btb & Btc & Fb & Fc) & Fa & Fr).
  simpl in Fr. apply Forall_app in Fr as [Frb Fr].
  apply Forall_cons in Fr as [Fxy Frc].
  simpl. rewrite !(keys_frame s s') by exact V. rewrite !V.
  split; [| split; [apply (bst_frame s s' _ V Btc)|]].
  - split; [apply (bst_frame s s' _ V Bta)|].
    split; [apply (bst_frame s s' _ V Btb)|]. split; [exact Fa | exact Frb].
  - split; [| exact Fc].
    apply Forall_app. split; [| apply Forall_cons; split; [exact Fxy | exact Fb]].
    eapply Forall_impl; [exact Fa|]. cbv beta. intros; lia.
Qed.

Lemma rot_left_keeps_order_witness :
  (1 <> 0)%nat /\
  tree_at store_12456 (Inner 3) (parent (node store_12456 3))
          (Br (Br Leaf 2 Leaf) 3 (Br Leaf 4 Leaf)) /\
  NoDup (addrs (Br (Br Leaf 2 Leaf) 3 (Br Leaf 4 Leaf))) /\
  attached store_12456 3 (Br (Br Leaf 2 Leaf) 3 (Br Leaf 4 Leaf)) /\
  exists s', _rot_left 1 3 store_12456 = Ret 4%nat s' /\
    keys s' (Br (Br (Br Leaf 2 Leaf) 3 Leaf) 4 Leaf) =
    keys store_12456 (Br (Br Leaf 2 Leaf) 3 (Br Leaf 4 Leaf)).
Proof.
  assert (Hf : (1 <> 0)%nat) by lia.
  assert (Ht : tree_at store_12456 (Inner 3) (parent (node store_12456 3))
                       (Br (Br Leaf 2 Leaf) 3 (Br Leaf 4 Leaf))).
  { vm_compute. repeat split; lia. }
  assert (Hnd : NoDup (addrs (Br (Br Leaf 2 Leaf) 3 (Br Leaf 4 Leaf)))).
  { apply (bool_decide_unpack _). vm_compute. exact I. }
  assert (Hat : attached store_12456 3 (Br (Br Leaf 2 Leaf) 3 (Br Leaf 4 Leaf))).
  { assert (E : parent (node store_12456 3) = Some 1%nat) by (vm_compute; reflexivity).
    unfold attached. rewrite E. clear E. split; [vm_compute; lia|].
    split; [apply (bool_decide_unpack _); vm_compute; exact I|].
    right. split; [vm_compute; reflexivity|].
    vm_compute. discriminate. }
  split; [exact Hf|]. split; [exact Ht|]. split; [exact Hnd|]. split; [exact Hat|].
  destruct (rot_left_keeps_order 1 store_12456 3 4 _ _ _ Hf Ht Hnd Hat)
    as (s' & Hrun & _ & Hk & _).
  exists s'. split; [exact Hrun | exact Hk].
Defined.

(** ** The reparenting helper, the smallest round trip, the test's check *)

(** X11. [_set_parent(y, x)] for two distinct allocated nodes: [y] takes
    the parent link of [x]; when [x] has no parent, [y] becomes the root of
    the tree; otherwise the slot of that parent that held [x] (the left one
    when it held [x], the right one when the left slot is empty or holds
    another key) holds [y], the root stays, and no node other than [y] and
    that parent is written. *)
Theorem set_parent_replaces (fuel : nat) (s : State) (x y : nat) :
  (x < length (heap s))%nat -> (y < length (heap s))%nat -> x <> y -> fuel <> O ->
  match parent (node s x) with
  | None => True
  | Some p =>
      (p < length (heap s))%nat /\ p <> x /\ p <> y /\
      (left s (Inner p) = Inner x \/
       value s (left s (Inner p)) <> value s (Inner x))
  end ->
  exists s1,
    _set_parent fuel (Inner y) (Inner x) s = Ret tt s1 /\
    parent (node s1 y) = parent (node s x) /\
    match parent (node s x) with
    | None => root s1 = Inner y
    | Some p => replaced_in s s1 p (Inner x) (Inner y) /\ root s1 = root s
    end /\
    (forall k, k <> y -> parent (node s x) <> Some k -> node s1 k = node s k).
Proof.
  intros Hx Hy Hxy Hf Hpar.
  destruct (set_parent_spec fuel s x y Hx Hy Hxy Hf Hpar)
    as (s1 & Hrun & _ & HR & _ & Ny & Np & No).
  exists s1. split; [exact Hrun|]. split; [rewrite Ny; reflexivity|].
  split; [| exact No].
  destruct (parent (node s x)) as [p|] eqn:Ep; [|exact HR].
  split; [| exact HR].
  specialize (Np p eq_refl). unfold replaced_in, left, right. rewrite Np.
  split; intros Hl.
  - rewrite decide_True by exact Hl. split; reflexivity.
  - rewrite decide_False by exact Hl. split; reflexivity.
Qed.

Lemma set_parent_replaces_witness :
  exists s1,
    _set_parent 1 (Inner 4) (Inner 3) store_12456 = Ret tt s1 /\
    parent (node s1 4) = parent (node store_12456 3).
Proof.
  assert (Hx : (3 < length (heap store_12456))%nat) by (vm_compute; lia).
  assert (Hy : (4 < length (heap store_12456))%nat) by (vm_compute; lia).
  assert (Hxy : (3 <> 4)%nat) by lia.
  assert (Hf : (1 <> 0)%nat) by lia.
  assert (Hp : match parent (node store_12456 3) with
               | None => True
               | Some p =>
                   (p < length (heap store_12456))%nat /\ p <> 3%nat /\ p <> 4%nat /\
                   (left store_12456 (Inner p) = Inner 3 \/
                    value store_12456 (left store_12456 (Inner p)) <>
                    value store_12456 (Inner 3))
               end).
  { assert (E : parent (node store_12456 3) = Some 1%nat) by (vm_compute; reflexivity).
    rewrite E. clear E. split; [vm_compute; lia|]. split; [lia|]. split; [lia|].
    right. vm_compute. discriminate. }
  destruct (set_parent_replaces 1 store_12456 3 4 Hx Hy Hxy Hf Hp)
    as (s1 & Hrun & Hpy & _).
  exists s1. split; [exact Hrun | exact Hpy].
Defined.

(** X12. The smallest round trip, for every key [k]: inserting [k] into
    the empty tree returns and gives a non-empty tree that contains [k]
    and no other key [j]; removing [k] again returns and gives an empty
    tree that does not contain [k]. *)
Theorem single_key_round_trip (fuel : nat) (k j : Z) :
  fuel <> O -> j <> k ->
  exists s1 s2,
    insert fuel k init = Ret tt s1 /\
    nonempty s1 = true /\
    contains fuel s1 k = Some true /\ contains fuel s1 j = Some false /\
    remove fuel k s1 = Ret tt s2 /\
    nonempty s2 = false /\ contains fuel s2 k = Some false.
Proof.
  intros Hf Hjk. destruct fuel as [|fuel]; [congruence|].
  eexists. eexists.
  split.
  { unfold insert. cbn [root init]. rewrite insert_find_empty. reflexivity. }
  cbn. rewrite Z.eqb_refl. cbn.
  split; [reflexivity|]. split; [reflexivity|].
  split.
  { destruct (Z.eqb_spec k j) as [E|_]; [congruence|].
    destruct (j <? k); destruct fuel; reflexivity. }
  split; [reflexivity|]. split; reflexivity.
Qed.

Lemma single_key_round_trip_witness :
  exists s1 s2,
    insert 1 5 init = Ret tt s1 /\
    nonempty s1 = true /\
    contains 1 s1 5 = Some true /\ contains 1 s1 7 = Some false /\
    remove 1 5 s1 = Ret tt s2 /\
    nonempty s2 = false /\ contains 1 s2 5 = Some false.
Proof.
  apply (single_key_round_trip 1 5 7); [lia | lia].
Defined.

Lemma is_balanced_region s : forall t r par fuel,
  tree_at s r par t -> (length (addrs t) <= fuel)%nat ->
  is_balanced fuel s r =
  Some (bool_decide (Forall (fun a => -2 < bf s (Inner a) < 2) (addrs t))).
Proof.
  induction t as [|l IHl a r' IHr]; intros r par fuel Ht Hf.
  - simpl in Ht. subst r. destruct fuel; cbn [is_balanced addrs];
      rewrite bool_decide_eq_true_2 by constructor; reflexivity.
  - simpl in Ht. destruct Ht as (-> & Ha & _ & Hl & Hr).
    simpl in Hf. rewrite length_app in Hf.
    destruct fuel as [|fuel]; [lia|].
    cbn [is_balanced addrs].
    destruct (Z.ltb_spec (-2) (bf s (Inner a))) as [H1|H1]; cbn [andb].
    + destruct (Z.ltb_spec (bf s (Inner a)) 2) as [H2|H2].
      * unfold left, right. rewrite (IHl _ _ fuel Hl) by lia.
        destruct (decide (Forall (fun a0 => -2 < bf s (Inner a0) < 2) (addrs l)))
          as [Fl|Fl].
        -- rewrite bool_decide_eq_true_2 by exact Fl.
           rewrite (IHr _ _ fuel Hr) by lia. f_equal. apply bool_decide_ext.
           rewrite Forall_cons, Forall_app. tauto.
        -- rewrite bool_decide_eq_false_2 by exact Fl. f_equal. symmetry.
           apply bool_decide_eq_false_2. rewrite Forall_cons, Forall_app. tauto.
      * symmetry. f_equal. apply bool_decide_eq_false_2. rewrite Forall_cons. lia.
    + symmetry. f_equal. apply bool_decide_eq_false_2. rewrite Forall_cons. lia.
Qed.

(** X13. On a tree-shaped region the test's check [is_balanced] returns
    (given fuel for the nodes) true exactly when every node of the region
    has a balance factor strictly between -2 and 2. *)
Theorem is_balanced_checks_all (fuel : nat) (s : State) (r : Node)
    (par : option nat) (t : shape) :
  tree_at s r par t -> (length (addrs t) <= fuel)%nat ->
  is_balanced fuel s r =
  Some (bool_decide (Forall (fun a => -2 < bf s (Inner a) < 2) (addrs t))).
Proof. intros Ht Hf. apply (is_balanced_region s t r par fuel Ht Hf). Qed.

Lemma is_balanced_checks_all_witness :
  tree_at store_12456 (root store_12456) None shape_12456 /\
  (length (addrs shape_12456) <= 5)%nat /\
  is_balanced 5 store_12456 (root store_12456) =
  Some (bool_decide (Forall (fun a => -2 < bf store_12456 (Inner a) < 2)
                            (addrs shape_12456))).
Proof.
  assert (Hf : (length (addrs shape_12456) <= 5)%nat) by (vm_compute; lia).
  split; [exact store_12456_tree|]. split; [exact Hf|].
  exact (is_balanced_checks_all 5 store_12456 _ None shape_12456 store_12456_tree Hf).
Defined.

(** ** [_balance_node] and [_rebalance] away from the rotation cases *)

Lemma balance_node_in_range fuel n s :
  -2 < bf s (Inner n) < 2 -> _balance_node fuel n s = Ret n s.
Proof.
  intros H. unfold _balance_node.
  destruct (Z.eqb_spec (bf s (Inner n)) 2) as [E|_]; [lia|].
  destruct (Z.eqb_spec (bf s (Inner n)) (-2)) as [E|_]; [lia|].
  cbn [andb]. apply check_bf_ok, H.
Qed.

(** X14. In every store: on a node whose balance factor lies strictly
    between -2 and 2, [_balance_node] returns that node and leaves the
    store as it is; on a node whose balance factor is below -2 or above 2
    no rotation applies and the final assertion fails, again in the store
    as it is. *)
Theorem balance_node_outside_rotations (fuel : nat) (n : nat) (s : State) :
  (-2 < bf s (Inner n) < 2 -> _balance_node fuel n s = Ret n s) /\
  (bf s (Inner n) < -2 \/ 2 < bf s (Inner n) ->
   _balance_node fuel n s = Raise AssertionError s).
Proof.
  split; intros H.
  - apply balance_node_in_range, H.
  - unfold _balance_node.
    destruct (Z.eqb_spec (bf s (Inner n)) 2) as [E|_]; [lia|].
    destruct (Z.eqb_spec (bf s (Inner n)) (-2)) as [E|_]; [lia|].
    cbn [andb]. unfold check_bf.
    destruct (Z.ltb_spec (-2) (bf s (Inner n))) as [H1|H1]; cbn [andb];
      [| reflexivity].
    destruct (Z.ltb_spec (bf s (Inner n)) 2) as [H2|H2]; [lia | reflexivity].
Qed.

Lemma balance_node_outside_rotations_witness :
  _balance_node 1 3 store_12456 = Ret 3%nat store_12456.
Proof.
  apply (proj1 (balance_node_outside_rotations 1 3 store_12456)).
  vm_compute. split; reflexivity.
Defined.

(** X15. In every store: when the chain of parent links from [n] ends
    within the fuel and every node on it has a balance factor strictly
    between -2 and 2, [_rebalance n] returns and leaves the whole store as
    it is; in particular it recomputes no cached height. *)
Theorem rebalance_balanced_path (fuel : nat) (s : State) (n : Node) (l : list nat) :
  parent_chain fuel s n = Some l ->
  Forall (fun p => -2 < bf s (Inner p) < 2) l ->
  _rebalance fuel n s = Ret tt s.
Proof.
  revert n l. induction fuel as [|fuel IH]; intros n l Hc Hl.
  - simpl in *. destruct (get_parent s n); [discriminate | reflexivity].
  - cbn [parent_chain _rebalance] in *.
    destruct (get_parent s n) as [p|]; [| reflexivity].
    destruct (parent_chain fuel s (Inner p)) as [l'|] eqn:Ec; [|discriminate].
    injection Hc as <-. apply Forall_cons in Hl as [Hp Hl'].
    unfold bind.
    rewrite (balance_node_in_range (S fuel) p s Hp).
    apply (IH _ l' Ec Hl').
Qed.

Lemma rebalance_balanced_path_witness :
  parent_chain 2 store_12456 (Inner 4) = Some [3; 1]%nat /\
  Forall (fun p => -2 < bf store_12456 (Inner p) < 2) [3; 1]%nat /\
  _rebalance 2 (Inner 4) store_12456 = Ret tt store_12456.
Proof.
  assert (Hc : parent_chain 2 store_12456 (Inner 4) = Some [3; 1]%nat)
    by (vm_compute; reflexivity).
  assert (Hl : Forall (fun p => -2 < bf store_12456 (Inner p) < 2) [3; 1]%nat).
  { repeat first [apply List.Forall_nil
                 | apply List.Forall_cons; [vm_compute; split; reflexivity|]]. }
  split; [exact Hc|]. split; [exact Hl|].
  exact (rebalance_balanced_path 2 store_12456 (Inner 4) _ Hc Hl).
Defined.

(** X16. Let [x] be on top of a tree-shaped region of distinct objects
    with an Inner left child [y]; let the parent of [x], if it has one, be
    an object outside the region that holds [x] in its left slot, or in its
    right slot with a left slot that is Empty or holds another key.
    [_rot_right x] returns [y] on top of a tree-shaped region again, with
    [x] as its right child over the former right subtrees of [y] and of
    [x]; the keys read in order are the same as before, and a
    search-ordered region stays search-ordered. *)
Theorem rot_right_keeps_order (fuel : nat) (s : State) (x y : nat)
    (ta tb tc : shape) :
  fuel <> O ->
  tree_at s (Inner x) (parent (node s x)) (Br (Br tc y tb) x ta) ->
  NoDup (addrs (Br (Br tc y tb) x ta)) ->
  attached s x (Br (Br tc y tb) x ta) ->
  exists s',
    _rot_right fuel x s = Ret y s' /\
    tree_at s' (Inner y) (parent (node s x)) (Br tc y (Br tb x ta)) /\
    keys s' (Br tc y (Br tb x ta)) = keys s (Br (Br tc y tb) x ta) /\
    (bst s (Br (Br tc y tb) x ta) -> bst s' (Br tc y (Br tb x ta))).
Proof.
  intros Hf Ht Hnd Hat.
  destruct (rot_ready_right fuel s x y ta tb tc Hf Ht Hnd Hat)
    as (Hxy & Ea & Eb & Ec & _ & _ & _ & Hready).
  rewrite <- Ea, <- Eb, <- Ec in Hready.
  destruct (rot_right_spec fuel s x y Hxy Hready) as (s' & Hrun & Hpost).
  exists s'. split; [exact Hrun|].
  assert (V : forall k, _value (node s' k) = _value (node s k))
    by (intros k; apply (rot_right_post_value s x y s' k Hpost)).
  destruct (rot_right_region s x y s' ta tb tc Hpost Ht Hnd) as [Htree Hkeys].
  { intros p Ep. apply (attached_outside s x _ p Hat Ep). }
  split; [exact Htree|]. split; [exact Hkeys|].
  intros ((Btc & Btb & Fc & Fb) & Bta & Fl & Fa).
  simpl in Fl. apply Forall_app in Fl as [Flc Fl].
  apply Forall_cons in Fl as [Fyx Flb].
  simpl. rewrite !(keys_frame s s') by exact V. rewrite !V.
  split; [apply (bst_frame s s' _ V Btc)|]. split; [| split; [exact Fc|]].
  - split; [apply (bst_frame s s' _ V Btb)|].
    split; [apply (bst_frame s s' _ V Bta)|]. split; [exact Flb | exact Fa].
  - apply Forall_app. split; [exact Fb|]. apply Forall_cons. split; [exact Fyx|].
    eapply Forall_impl; [exact Fa|]. cbv beta. intros; lia.
Qed.

Lemma rot_right_keeps_order_witness :
  (1 <> 0)%nat /\
  tree_at store_12456 (Inner 1) (parent (node store_12456 1)) shape_12456 /\
  NoDup (addrs shape_12456) /\
  attached store_12456 1 shape_12456 /\
  exists s', _rot_right 1 1 store_12456 = Ret 0%nat s' /\
    keys s' (Br Leaf 0 (Br Leaf 1 (Br (Br Leaf 2 Leaf) 3 (Br Leaf 4 Leaf)))) =
    keys store_12456 shape_12456.
Proof.
  assert (Hf : (1 <> 0)%nat) by lia.
  assert (Ht : tree_at store_12456 (Inner 1) (parent (node store_12456 1)) shape_12456).
  { vm_compute. repeat split; lia. }
  assert (Hnd : NoDup (addrs shape_12456)).
  { apply (bool_decide_unpack _). vm_compute. exact I. }
  assert (Hat : attached store_12456 1 shape_12456).
  { assert (E : parent (node store_12456 1) = None) by (vm_compute; reflexivity).
    unfold attached. rewrite E. exact I. }
  split; [exact Hf|]. split; [exact Ht|]. split; [exact Hnd|]. split; [exact Hat|].
  destruct (rot_right_keeps_order 1 store_12456 1 0 _ _ _ Hf Ht Hnd Hat)
    as (s' & Hrun & _ & Hk & _).
  exists s'. split; [exact Hrun | exact Hk].
Defined.
